(** * shopify-mcp: the OAuth token flow and the bulk-export tools

  A shallow embedding of [src/oauth.ts] (callback server, token exchange,
  token store) and of the three bulk-operation tools
  ([startBulkExport], [getBulkOperationStatus], [getBulkOperationResults]),
  together with the properties the specification states about them.

  Conventions of the embedding.
  - A JavaScript string is the list of its UTF-16 code units.
  - A [throw] is the [Throw] case of [outcome]; [try]/[catch] is [catch].
  - The numbers the tools compute with are integers read by [parseInt]
    (or [NaN]); they are kept exact, which is what a double does below
    2^53; statements about parsed numbers carry that bound.
  - Library calls whose result the program only passes on ([fetch], the
    GraphQL client, [JSON.parse] of a downloaded line, the clock, the
    random nonce) are inputs of the functions that make them. *)

From Stdlib Require Import ZArith NArith QArith Qround Lia Ascii String DecimalN.
From stdpp Require Import base decidable option list gmap.

Local Open Scope Z_scope.

(* ===================================================================== *)
(** * JavaScript strings, numbers and exceptions *)
(* ===================================================================== *)

Module Js.

(** A string is a list of UTF-16 code units. *)
Abbreviation jsstring := (list N).

(** [js "abc"] is the JavaScript string literal with these characters. *)
Fixpoint js (s : string) : jsstring :=
  match s with
  | EmptyString => []
  | String a r => N_of_ascii a :: js r
  end.

(** The double quote, which a Rocq literal cannot hold comfortably. *)
Definition dquote : jsstring := [34%N].

(** [parts.join(sep)] *)
Fixpoint join (sep : jsstring) (parts : list jsstring) : jsstring :=
  match parts with
  | [] => []
  | [p] => p
  | p :: rest => p ++ sep ++ join sep rest
  end.

(** [s.split(sep)] for a one-character separator: never the empty list. *)
Fixpoint split (sep : N) (s : jsstring) : list jsstring :=
  match s with
  | [] => [[]]
  | c :: r =>
      if (c =? sep)%N then [] :: split sep r
      else match split sep r with
           | l :: ls => (c :: l) :: ls
           | [] => [[c]]
           end
  end.

(** WhiteSpace and LineTerminator code points: what [trim] strips and
    [parseInt] skips. *)
Definition is_white_space (c : N) : bool :=
  ((c =? 9) || (c =? 10) || (c =? 11) || (c =? 12) || (c =? 13) || (c =? 32)
   || (c =? 160) || (c =? 5760) || ((8192 <=? c) && (c <=? 8202))
   || (c =? 8232) || (c =? 8233) || (c =? 8239) || (c =? 8287)
   || (c =? 12288) || (c =? 65279))%N.

Fixpoint trimStart (s : jsstring) : jsstring :=
  match s with
  | c :: r => if is_white_space c then trimStart r else s
  | [] => []
  end.

Definition trimEnd (s : jsstring) : jsstring := rev (trimStart (rev s)).

Definition trim (s : jsstring) : jsstring := trimEnd (trimStart s).

(** [x] occurs in [s] as a substring. *)
Definition occurs (x s : jsstring) : Prop := ∃ before after, s = before ++ x ++ after.

Fixpoint starts_with (x s : jsstring) : bool :=
  match x, s with
  | [], _ => true
  | c :: x, c' :: s => (c =? c')%N && starts_with x s
  | _ :: _, [] => false
  end.

(** [s.includes(x)] *)
Fixpoint includes (s x : jsstring) : bool :=
  starts_with x s
  || match s with
     | [] => false
     | _ :: rest => includes rest x
     end.

(** ** Numbers *)

(** The value of a number the tools handle: an integer, or NaN. *)
Inductive number : Type :=
| NaN
| Num (z : Z).

Definition is_digit (c : N) : bool := ((48 <=? c) && (c <=? 57))%N.

(** The longest prefix of decimal digits. *)
Fixpoint digit_prefix (s : jsstring) : jsstring :=
  match s with
  | c :: r => if is_digit c then c :: digit_prefix r else []
  | [] => []
  end.

(** The decimal numeral a string of digits spells. *)
Fixpoint uint_of_digits (ds : jsstring) : Decimal.uint :=
  match ds with
  | [] => Decimal.Nil
  | c :: r =>
      let u := uint_of_digits r in
      match (c - 48)%N with
      | 0%N => Decimal.D0 u
      | 1%N => Decimal.D1 u
      | 2%N => Decimal.D2 u
      | 3%N => Decimal.D3 u
      | 4%N => Decimal.D4 u
      | 5%N => Decimal.D5 u
      | 6%N => Decimal.D6 u
      | 7%N => Decimal.D7 u
      | 8%N => Decimal.D8 u
      | _ => Decimal.D9 u
      end
  end.

(** The value of a string of decimal digits, most significant first. *)
Definition digits_value (ds : jsstring) : N := N.of_uint (uint_of_digits ds).

(** [parseInt(s, 10)]: skip white space, read a sign, read the longest
    run of digits; NaN when there is none. *)
Definition parseInt (s : jsstring) : number :=
  let s := trimStart s in
  let sign :=
    match s with
    | c :: _ => if (c =? 45)%N then -1 else 1
    | [] => 1
    end in
  let s :=
    match s with
    | c :: r => if ((c =? 43) || (c =? 45))%N then r else s
    | [] => s
    end in
  match digit_prefix s with
  | [] => NaN
  | ds => Num (sign * Z.of_N (digits_value ds))
  end.

Fixpoint digits_of_uint (u : Decimal.uint) : jsstring :=
  match u with
  | Decimal.Nil => []
  | Decimal.D0 u => 48%N :: digits_of_uint u
  | Decimal.D1 u => 49%N :: digits_of_uint u
  | Decimal.D2 u => 50%N :: digits_of_uint u
  | Decimal.D3 u => 51%N :: digits_of_uint u
  | Decimal.D4 u => 52%N :: digits_of_uint u
  | Decimal.D5 u => 53%N :: digits_of_uint u
  | Decimal.D6 u => 54%N :: digits_of_uint u
  | Decimal.D7 u => 55%N :: digits_of_uint u
  | Decimal.D8 u => 56%N :: digits_of_uint u
  | Decimal.D9 u => 57%N :: digits_of_uint u
  end.

(** The decimal digits of a natural number, ["0"] for zero. *)
Definition digits_of_N (n : N) : jsstring := digits_of_uint (N.to_uint n).

(** [String(x)] / [`${x}`] of an integer-valued number (below 1e21). *)
Definition number_to_string (x : number) : jsstring :=
  match x with
  | NaN => js "NaN"
  | Num z =>
      if z <? 0 then js "-" ++ digits_of_N (Z.to_N (- z))
      else digits_of_N (Z.to_N z)
  end.

(** [a > b] on numbers: false as soon as NaN is involved. *)
Definition gt (a b : number) : bool :=
  match a, b with
  | Num x, Num y => y <? x
  | _, _ => false
  end.

(** The decimal rendering of [n / 100] with two digits after the point,
    for [0 <= n]. *)
Definition two_decimals (n : Z) : jsstring :=
  let frac := n mod 100 in
  digits_of_N (Z.to_N (n / 100)) ++ js "."
    ++ (if frac <? 10 then js "0" else []) ++ digits_of_N (Z.to_N frac).

(** [(num / den).toFixed(2)] for [0 <= num], [0 < den].  [toFixed] picks
    the integer [n] with [n / 100] nearest to the exact quotient, the larger
    one on a tie, and prints [n] with a point before its last two digits.
    (The quotient of an integer below 2^53 by a power of two is exact in
    a double, so the exact quotient is the one the program holds.) *)
Definition toFixed2 (num den : Z) : jsstring :=
  two_decimals ((200 * num + den) / (2 * den)).

(** ** Exceptions *)

(** The result of a call that may throw an [Error] with a message. *)
Inductive outcome (A : Type) : Type :=
| Return (a : A)
| Throw (message : jsstring).
Arguments Return {A} a.
Arguments Throw {A} message.

Definition bind {A B} (m : outcome A) (k : A -> outcome B) : outcome B :=
  match m with
  | Return a => k a
  | Throw e => Throw e
  end.

(** [try { m } catch (error) { h error.message }] *)
Definition catch {A} (m : outcome A) (h : jsstring -> outcome A) : outcome A :=
  match m with
  | Return a => Return a
  | Throw e => h e
  end.

Definition throws {A} (m : outcome A) : bool :=
  match m with
  | Return _ => false
  | Throw _ => true
  end.

End Js.

Export Js.

(** [x ← m; k] runs [m] and, unless it threw, continues with [k]. *)
#[global] Instance outcome_ret : MRet outcome := @Return.
#[global] Instance outcome_bind : MBind outcome := fun _ _ k m => bind m k.
#[global] Instance outcome_fmap : FMap outcome := fun _ _ f m =>
  bind m (fun a => Return (f a)).


(* ===================================================================== *)
(** * oauth.ts: the authorization-code flow and the token store *)
(* ===================================================================== *)

Module OAuth.

Definition CALLBACK_PORT : Z := 3456.

Definition REDIRECT_URI : jsstring :=
  js "http://localhost:" ++ number_to_string (Num CALLBACK_PORT) ++ js "/callback".

Definition DEFAULT_SCOPES : jsstring :=
  join (js ",")
    (js <$> [ "read_products"; "write_products"; "read_customers";
              "write_customers"; "read_orders"; "write_orders";
              "read_inventory"; "write_inventory"; "read_locations";
              "read_content"; "write_content" ])%string.

(** A token record.  [access_token] and [scope] are whatever the token
    endpoint sent under these names, unchecked: [None] is [undefined] (the
    member was missing); a member that is present is taken to be a
    string, as declared. *)
Record TokenData : Type := {
  access_token : option jsstring;
  scope : option jsstring;
  obtained_at : jsstring
}.

(** A domain, in the words of the specification "a non-empty host
    string": letters, digits, hyphens and dots.  The program itself takes
    any string. *)
Definition host_character (c : N) : bool :=
  (((97 <=? c) && (c <=? 122)) || ((65 <=? c) && (c <=? 90))
   || ((48 <=? c) && (c <=? 57)) || (c =? 45) || (c =? 46))%N.

Definition hostname (domain : jsstring) : bool :=
  match domain with
  | [] => false
  | _ :: _ => forallb host_character domain
  end.

(** ** The token store: a plain object used as a map

    [TokenStore] is [{ [domain: string]: TokenData }].  Its own properties
    are a finite map; like every plain object it also inherits the
    properties of [Object.prototype], which a read [tokens[domain]] finds
    when there is no own property of that name, and among which
    [__proto__] is an accessor that a write [tokens["__proto__"] = v]
    calls instead of creating an own property.  The order in which
    [JSON.stringify] lists the keys, which the program never observes, is
    not represented. *)

Abbreviation TokenStore := (gmap (list N) TokenData).

Definition Object_prototype_properties : list jsstring :=
  js <$> [ "constructor"; "__defineGetter__"; "__defineSetter__";
           "hasOwnProperty"; "__lookupGetter__"; "__lookupSetter__";
           "isPrototypeOf"; "propertyIsEnumerable"; "toString"; "valueOf";
           "__proto__"; "toLocaleString" ]%string.

(** What [tokens[domain]] evaluates to when it is truthy: a stored record;
    the member of that name of a built-in prototype (a function, or for
    [__proto__] the prototype object itself); and, when the file holds an
    array or a string instead of a store, a non-zero [length] or the
    character at an index. *)
Inductive property_value : Type :=
| Own (t : TokenData)
| Inherited (name : jsstring)
| Length (n : nat)
| Character (c : N).

(** [tokens[key]]; [None] is [undefined]. *)
Definition get_property (tokens : TokenStore) (key : jsstring)
  : option property_value :=
  match tokens !! key with
  | Some t => Some (Own t)
  | None =>
      if bool_decide (key ∈ Object_prototype_properties)
      then Some (Inherited key) else None
  end.

(** [tokens[key] = value], as far as the own properties go: an existing
    own property is overwritten; otherwise the [__proto__] setter swallows
    the write, and any other key becomes a new own property. *)
Definition set_property (tokens : TokenStore) (key : jsstring)
  (value : TokenData) : TokenStore :=
  match tokens !! key with
  | Some _ => <[key := value]> tokens
  | None =>
      if bool_decide (key = js "__proto__") then tokens
      else <[key := value]> tokens
  end.

(** ** The credential file

    The text of [~/.shopify-mcp/tokens.json] is identified with what
    [JSON.parse] makes of it.  It throws ([Unparseable]); or it yields an
    object, taken at the type the program declares for it, a [TokenStore]
    whose own properties are the entries of the file; or it yields a JSON
    value that is no object at all: [null], a number, a string, a
    boolean, or an array (whose elements are taken to be token records or
    [null]).  [JSON.stringify] writes exactly the own properties of an
    object and the elements of an array (a hole as [null]), and reading
    them back gives the same. *)
Inductive primitive : Type :=
| json_number (rendered : jsstring)   (* the number as [String] renders it *)
| json_boolean (b : bool)
| json_string (s : jsstring).

(** What [JSON.parse] returns. *)
Inductive parsed : Type :=
| Store (tokens : TokenStore)
| Null
| Primitive (p : primitive)
| Array (elements : list (option TokenData)).

Inductive file_content : Type :=
| Unparseable
| Parsed (value : parsed).

(** A file holding a store. *)
Abbreviation Json tokens := (Parsed (Store tokens)).

(** The directory and the file, each absent or present with its mode. *)
Record filesystem : Type := {
  TOKEN_DIR : option Z;
  TOKEN_FILE : option (Z * file_content)
}.

(** *** Property access on a parsed value that is no store *)

(** An array index: the canonical decimal form of an integer below
    2^32 - 1. *)
Definition array_index (key : jsstring) : option nat :=
  let n := digits_value key in
  if bool_decide (key = digits_of_N n) && (n <? 4294967295)%N
  then Some (N.to_nat n) else None.

(** The string-keyed members of the built-in prototypes (ECMAScript 2023),
    [length] apart. *)
Definition Array_prototype_properties : list jsstring :=
  js <$> [ "constructor"; "at"; "concat"; "copyWithin"; "fill"; "find";
           "findIndex"; "findLast"; "findLastIndex"; "lastIndexOf"; "pop";
           "push"; "reverse"; "shift"; "unshift"; "slice"; "sort"; "splice";
           "includes"; "indexOf"; "join"; "keys"; "entries"; "values";
           "forEach"; "filter"; "flat"; "flatMap"; "map"; "every"; "some";
           "reduce"; "reduceRight"; "toLocaleString"; "toString";
           "toReversed"; "toSorted"; "toSpliced"; "with" ]%string.

Definition String_prototype_properties : list jsstring :=
  js <$> [ "constructor"; "anchor"; "at"; "big"; "blink"; "bold"; "charAt";
           "charCodeAt"; "codePointAt"; "concat"; "endsWith"; "fontcolor";
           "fontsize"; "fixed"; "includes"; "indexOf"; "isWellFormed";
           "italics"; "lastIndexOf"; "link"; "localeCompare"; "match";
           "matchAll"; "normalize"; "padEnd"; "padStart"; "repeat";
           "replace"; "replaceAll"; "search"; "slice"; "small"; "split";
           "strike"; "sub"; "substr"; "substring"; "sup"; "startsWith";
           "toString"; "toWellFormed"; "trim"; "trimStart"; "trimLeft";
           "trimEnd"; "trimRight"; "toLocaleLowerCase"; "toLocaleUpperCase";
           "toLowerCase"; "toUpperCase"; "valueOf" ]%string.

Definition Number_prototype_properties : list jsstring :=
  js <$> [ "constructor"; "toExponential"; "toFixed"; "toPrecision";
           "toString"; "valueOf"; "toLocaleString" ]%string.

Definition Boolean_prototype_properties : list jsstring :=
  js <$> [ "constructor"; "toString"; "valueOf" ]%string.

(** A member a value inherits from its own prototype or from
    [Object.prototype]. *)
Definition inherited (own_prototype : list jsstring) (key : jsstring)
  : option property_value :=
  if bool_decide (key ∈ own_prototype ++ Object_prototype_properties)
  then Some (Inherited key) else None.

(** [length] of an array or a string, when it is not zero. *)
Definition truthy_length (n : nat) : option property_value :=
  match n with
  | O => None
  | S _ => Some (Length n)
  end.

(** [tokens[key] || null] when [tokens] is an array. *)
Definition get_array_property (elements : list (option TokenData))
  (key : jsstring) : option property_value :=
  match array_index key with
  | Some i =>
      match elements !! i with
      | Some (Some t) => Some (Own t)
      | _ => None                       (* [null], or no such element *)
      end
  | None =>
      if bool_decide (key = js "length") then truthy_length (length elements)
      else inherited Array_prototype_properties key
  end.

(** [tokens[key] || null] when [tokens] is a number, a boolean or a
    string. *)
Definition get_primitive_property (p : primitive) (key : jsstring)
  : option property_value :=
  match p with
  | json_number _ => inherited Number_prototype_properties key
  | json_boolean _ => inherited Boolean_prototype_properties key
  | json_string s =>
      match array_index key with
      | Some i =>
          match s !! i with
          | Some c => Some (Character c)
          | None => None
          end
      | None =>
          if bool_decide (key = js "length") then truthy_length (length s)
          else inherited String_prototype_properties key
      end
  end.

(** [elements[i] = value]: an index beyond the end extends the array, and
    [JSON.stringify] writes the holes in between as [null].  (An index so
    large that the text of the array no longer fits a string makes
    [JSON.stringify] throw instead; that limit of the engine is not
    represented.) *)
Definition set_element (elements : list (option TokenData)) (i : nat)
  (value : TokenData) : list (option TokenData) :=
  if (i <? length elements)%nat then <[i := Some value]> elements
  else elements ++ replicate (i - length elements) None ++ [Some value].

(** How the error messages name a primitive: its type and its text. *)
Definition describe (p : primitive) : jsstring :=
  match p with
  | json_number rendered => js "number '" ++ rendered ++ js "'"
  | json_boolean b => js "boolean '" ++ (if b then js "true" else js "false") ++ js "'"
  | json_string s => js "string '" ++ s ++ js "'"
  end.

(** The statement [tokens[domain] = tokenData] (in strict mode, as in every
    module), on whatever [tokens] holds; the messages are those of V8.
    - On a store it sets the property.
    - On [null] it throws a [TypeError].
    - On a number, a boolean or a string it throws a [TypeError] as well,
      unless the key is [__proto__], whose setter does nothing for a value
      that is no object.
    - On an array an index stores an element, [length] throws a
      [RangeError], and any other key creates a property that
      [JSON.stringify] does not write. *)
Definition assign (tokens : parsed) (domain : jsstring)
  (tokenData : TokenData) : outcome parsed :=
  match tokens with
  | Store stored => Return (Store (set_property stored domain tokenData))
  | Null =>
      Throw (js "Cannot set properties of null (setting '" ++ domain ++ js "')")
  | Primitive p =>
      if bool_decide (domain = js "__proto__") then Return tokens
      else
        match p, array_index domain with
        | json_string s, Some i =>
            if (i <? length s)%nat then
              Throw (js "Cannot assign to read only property '" ++ domain
                       ++ js "' of " ++ describe p)
            else
              Throw (js "Cannot create property '" ++ domain ++ js "' on "
                       ++ describe p)
        | json_string s, None =>
            if bool_decide (domain = js "length") then
              Throw (js "Cannot assign to read only property 'length' of "
                       ++ describe p)
            else
              Throw (js "Cannot create property '" ++ domain ++ js "' on "
                       ++ describe p)
        | _, _ =>
            Throw (js "Cannot create property '" ++ domain ++ js "' on "
                     ++ describe p)
        end
  | Array elements =>
      match array_index domain with
      | Some i => Return (Array (set_element elements i tokenData))
      | None =>
          if bool_decide (domain = js "length")
          then Throw (js "Invalid array length")
          else Return tokens
      end
  end.

(** [saveToken(domain, tokenData)]: whether it returns or throws, and the
    disk it leaves. *)
Definition saveToken (domain : jsstring) (tokenData : TokenData)
  (fs : filesystem) : outcome unit * filesystem :=
  (* Ensure token directory exists *)
  let dir :=
    match TOKEN_DIR fs with
    | Some mode => Some mode
    | None => Some 448            (* mode: 0o700 *)
    end in
  (* Load existing tokens or create new store *)
  let tokens : parsed :=
    match TOKEN_FILE fs with
    | Some (_, Parsed value) => value
    | Some (_, Unparseable) => Store ∅   (* If file is corrupted, start fresh *)
    | None => Store ∅
    end in
  (* Add/update token for this domain *)
  match assign tokens domain tokenData with
  | Throw e => (Throw e, {| TOKEN_DIR := dir; TOKEN_FILE := TOKEN_FILE fs |})
  | Return tokens =>
      (* Write back with restricted permissions (the mode of a new file) *)
      let mode :=
        match TOKEN_FILE fs with
        | Some (mode, _) => mode
        | None => 384                 (* mode: 0o600 *)
        end in
      (Return tt,
       {| TOKEN_DIR := dir; TOKEN_FILE := Some (mode, Parsed tokens) |})
  end.

(** [loadToken(domain)]: [None] is [null]. *)
Definition loadToken (domain : jsstring) (fs : filesystem)
  : option property_value :=
  match TOKEN_FILE fs with
  | None => None
  | Some (_, Unparseable) => None
  | Some (_, Json tokens) =>
      match get_property tokens domain with
      | Some v => Some v              (* tokens[domain] || null *)
      | None => None
      end
  | Some (_, Parsed Null) => None     (* the [TypeError] is caught *)
  | Some (_, Parsed (Primitive p)) => get_primitive_property p domain
  | Some (_, Parsed (Array elements)) => get_array_property elements domain
  end.

(** ** Disks to state and try the properties on *)

(** The store [saveToken] starts from. *)
Definition stored_tokens (fs : filesystem) : TokenStore :=
  match TOKEN_FILE fs with
  | Some (_, Json tokens) => tokens
  | _ => ∅
  end.

(** The credential file is absent, is not JSON, or holds a JSON object:
    the cases in which [saveToken] has a store to start from. *)
Definition starts_from_store (fs : filesystem) : bool :=
  match TOKEN_FILE fs with
  | Some (_, Parsed (Null | Primitive _ | Array _)) => false
  | _ => true
  end.

(** A disk on which nothing has been saved yet. *)
Definition blank_disk : filesystem :=
  {| TOKEN_DIR := None; TOKEN_FILE := None |}.

(** A disk whose credential file holds [content]. *)
Definition disk_holding (content : file_content) : filesystem :=
  {| TOKEN_DIR := Some 448; TOKEN_FILE := Some (384, content) |}.

(** A disk whose credential file holds [tokens]. *)
Definition disk_with (tokens : TokenStore) : filesystem :=
  disk_holding (Json tokens).

(** A disk whose credential file is not JSON. *)
Definition corrupted_disk : filesystem := disk_holding Unparseable.

(** A disk whose credential file holds the JSON value [null]. *)
Definition null_disk : filesystem := disk_holding (Parsed Null).

(** A disk whose credential file holds the empty array. *)
Definition array_disk : filesystem := disk_holding (Parsed (Array [])).

Definition example_token : TokenData :=
  {| access_token := Some (js "shpat_1"); scope := Some (js "read_products");
     obtained_at := js "2024-01-01T00:00:00.000Z" |}.

Definition example_domain : jsstring := js "shop.myshopify.com".

(** ** The callback server *)

(** The URL of an incoming request, as [new URL(req.url, base)] presents
    it once it has parsed the target: the path and the query parameters
    in order. *)
Record request : Type := {
  pathname : jsstring;
  searchParams : list (jsstring * jsstring)
}.

(** [url.searchParams.get(name)]: the first value of that name, or [null]. *)
Fixpoint searchParams_get (params : list (jsstring * jsstring))
  (name : jsstring) : option jsstring :=
  match params with
  | [] => None
  | (k, v) :: rest =>
      if bool_decide (k = name) then Some v else searchParams_get rest name
  end.

(** What [res.writeHead] and [res.end] sent. *)
Record response : Type := {
  statusCode : Z;
  headers : list (jsstring * jsstring);
  body : jsstring
}.

Definition success_page : jsstring := js "
        <!DOCTYPE html>
        <html>
        <head>
          <title>Authorization Successful</title>
          <style>
            body { font-family: system-ui, sans-serif; max-width: 600px; margin: 100px auto; text-align: center; }
            h1 { color: #008060; }
            p { color: #637381; }
          </style>
        </head>
        <body>
          <h1>Authorization Successful!</h1>
          <p>You can close this window and return to your terminal.</p>
          <p>The Shopify MCP is now connected to your store.</p>
        </body>
        </html>
      ".

(** The promise [startCallbackServer] returns. *)
Inductive promise (A : Type) : Type :=
| Pending
| Resolved (value : A)
| Rejected (message : jsstring).
Arguments Pending {A}.
Arguments Resolved {A} value.
Arguments Rejected {A} message.

(** [resolve] and [reject] act on a pending promise only. *)
Definition settle {A} (p new : promise A) : promise A :=
  match p with
  | Pending => new
  | _ => p
  end.

(** The server: whether [server.close()] has been called, the promise, and
    the responses sent so far. *)
Record server : Type := {
  closed : bool;
  callback : promise (jsstring * jsstring);
  sent : list response
}.

Definition listening : server :=
  {| closed := false; callback := Pending; sent := [] |}.

Definition invalid_state : jsstring := js "Invalid state parameter".
Definition missing_code_or_shop : jsstring := js "Missing code or shop parameter".
Definition timed_out : jsstring := js "Authorization timed out after 5 minutes".
Definition failed_to_start (message : jsstring) : jsstring :=
  js "Failed to start callback server: " ++ message.

(** The response to a callback whose state is not the expected one. *)
Definition invalid_state_response : response :=
  {| statusCode := 400; headers := [];
     body := js "Invalid state parameter. Possible CSRF attack." |}.

Definition respond (r : response) (s : server) : server :=
  {| closed := closed s; callback := callback s; sent := sent s ++ [r] |}.

Definition close (s : server) : server :=
  {| closed := true; callback := callback s; sent := sent s |}.

Definition reject (message : jsstring) (s : server) : server :=
  {| closed := closed s; callback := settle (callback s) (Rejected message);
     sent := sent s |}.

Definition resolve (value : jsstring * jsstring) (s : server) : server :=
  {| closed := closed s; callback := settle (callback s) (Resolved value);
     sent := sent s |}.

(** The request listener of [http.createServer], from its second line on:
    what it does with the parsed URL. *)
Definition on_request (expectedState : jsstring) (req : request) (s : server)
  : server :=
  if bool_decide (pathname req ≠ js "/callback") then
    respond {| statusCode := 404; headers := []; body := js "Not found" |} s
  else
    let code := searchParams_get (searchParams req) (js "code") in
    let state := searchParams_get (searchParams req) (js "state") in
    let shop := searchParams_get (searchParams req) (js "shop") in
    (* Validate state to prevent CSRF *)
    if bool_decide (state ≠ Some expectedState) then
      reject invalid_state (close (respond invalid_state_response s))
    else
      match code, shop with
      | Some ((_ :: _) as code), Some ((_ :: _) as shop) =>
          (* Send success response to browser *)
          resolve (code, shop)
            (close
               (respond {| statusCode := 200;
                           headers := [(js "Content-Type", js "text/html")];
                           body := success_page |} s))
      | _, _ =>
          (* !code || !shop *)
          reject missing_code_or_shop
            (close
               (respond {| statusCode := 400; headers := [];
                           body := js "Missing code or shop parameter" |} s))
      end.

(** The target the listener parses: [req.url || ""]. *)
Definition target_of (req_url : option jsstring) : jsstring :=
  match req_url with
  | Some ((_ :: _) as target) => target
  | _ => []                            (* req.url || "" *)
  end.

(** The request listener from its first line.  [new URL(req.url || "", base)]
    throws a [TypeError] on a target it cannot parse (["//"] is one);
    nothing catches it, so no response is written and the exception
    leaves the listener (which ends the process).  [new_URL] is the
    parser, from the target to the URL. *)
Definition listener (new_URL : jsstring -> outcome request)
  (expectedState : jsstring) (req_url : option jsstring) (s : server)
  : outcome server :=
  url ← new_URL (target_of req_url);
  mret (on_request expectedState url s).

(** The ["error"] listener. *)
Definition on_error (message : jsstring) (s : server) : server :=
  reject (failed_to_start message) s.

(** The [setTimeout] callback. *)
Definition on_timeout (s : server) : server :=
  reject timed_out (close s).

(** Timeout after 5 minutes, in milliseconds. *)
Definition TIMEOUT_MS : Z := 5 * 60 * 1000.

Inductive event : Type :=
| Incoming (req : request)
| ServerError (message : jsstring)
| TimerFired.

Definition handle (expectedState : jsstring) (s : server) (e : event) : server :=
  match e with
  | Incoming req => on_request expectedState req s
  | ServerError message => on_error message s
  | TimerFired => on_timeout s
  end.

Definition run (expectedState : jsstring) (events : list event) (s : server)
  : server :=
  fold_left (handle expectedState) events s.

(** What happens around one run of the server: [listen] fails with a
    message or succeeds, and requests arrive, each at some time in
    milliseconds after the start, listed in the order of their arrival. *)
Record callback_traffic : Type := {
  listen_error : option jsstring;
  arrivals : list (Z * request)
}.

(** The events in the order the event loop delivers them: the timer fires
    once, after the requests that came before [TIMEOUT_MS]; a server that
    failed to listen receives no request.  The arrivals are the requests
    whose target parses.  All of them are delivered, also those that
    arrive after [server.close()] (a closed server still serves the
    connections it has); they add to [sent] and change nothing else. *)
Definition timeline (traffic : callback_traffic) : list event :=
  match listen_error traffic with
  | Some message => [ServerError message; TimerFired]
  | None =>
      (Incoming ∘ snd <$> filter (fun a => a.1 < TIMEOUT_MS) (arrivals traffic))
        ++ [TimerFired]
        ++ (Incoming ∘ snd <$> filter (fun a => TIMEOUT_MS <= a.1) (arrivals traffic))
  end.

(** [startCallbackServer(expectedState)]: the server once every event has
    been delivered; its [callback] field is the promise returned. *)
Definition startCallbackServer (expectedState : jsstring)
  (traffic : callback_traffic) : server :=
  run expectedState (timeline traffic) listening.

(** The outcomes of the callback promise the specification lists: the
    matching callback, the state mismatch, the callback without code or
    shop, and the timeout. *)
Definition listed_outcome (p : promise (jsstring * jsstring)) : Prop :=
  match p with
  | Pending => False
  | Resolved _ => True
  | Rejected message =>
      message = invalid_state ∨ message = missing_code_or_shop
      ∨ message = timed_out
  end.

(** The invariant behind the release of the port: while the promise is
    settled, the server has been closed, unless the promise was rejected
    by the ["error"] listener. *)
Definition released (s : server) : Prop :=
  match callback s with
  | Pending => True
  | Resolved _ => closed s = true
  | Rejected message =>
      closed s = true ∨ ∃ cause, message = failed_to_start cause
  end.

(** ** The token exchange *)

(** The POST to the token endpoint: its URL and the three members of its
    JSON body. *)
Record token_request : Type := {
  endpoint : jsstring;
  client_id : jsstring;
  client_secret : jsstring;
  code : jsstring
}.

(** What the flow reads of the JSON body of an answer: its members
    [access_token] and [scope], [None] when the body has no such member
    ([undefined]).  The cast to [{ access_token: string; scope: string }]
    checks nothing. *)
Record token_grant : Type := {
  granted_token : option jsstring;
  granted_scope : option jsstring
}.

(** The answer of the token endpoint: its status, what [response.text()]
    reads, and what [response.json()] reads: it throws on a body that is
    not JSON, and [Return None] is the JSON value [null]. *)
Record token_response : Type := {
  status : Z;
  text : jsstring;
  json : outcome (option token_grant)
}.

(** [response.ok]: the status is in the range 200-299. *)
Definition ok (r : token_response) : bool :=
  (200 <=? status r) && (status r <=? 299).

(** Everything the flow takes from outside the program. *)
Record environment : Type := {
  randomBytes_hex : jsstring;      (* crypto.randomBytes(16).toString("hex") *)
  URLSearchParams_toString : list (jsstring * jsstring) -> jsstring;
  open : jsstring -> outcome unit; (* opens the browser *)
  traffic : callback_traffic;
  fetch : token_request -> outcome token_response;
  Date_toISOString : jsstring      (* new Date().toISOString() *)
}.

(** What the flow changes outside the program: the disk, the requests it
    sent to the token endpoint and the URLs it opened, oldest first. *)
Record world : Type := {
  disk : filesystem;
  fetched : list token_request;
  opened : list jsstring
}.

(** A computation that may throw and changes the world. *)
Definition io (A : Type) : Type := world -> outcome A * world.

#[global] Instance io_ret : MRet io := fun _ a w => (Return a, w).
#[global] Instance io_bind : MBind io := fun _ _ k m w =>
  match m w with
  | (Return a, w') => k a w'
  | (Throw e, w') => (Throw e, w')
  end.

(** A call that throws or returns without touching the world. *)
Definition lift {A} (m : outcome A) : io A := fun w => (m, w).

Definition do_fetch (env : environment) (req : token_request)
  : io token_response :=
  fun w =>
    (fetch env req,
     {| disk := disk w; fetched := fetched w ++ [req]; opened := opened w |}).

Definition do_open (env : environment) (url : jsstring) : io unit :=
  fun w =>
    (open env url,
     {| disk := disk w; fetched := fetched w; opened := opened w ++ [url] |}).

Definition do_saveToken (domain : jsstring) (tokenData : TokenData) : io unit :=
  fun w =>
    let '(result, fs) := saveToken domain tokenData (disk w) in
    (result, {| disk := fs; fetched := fetched w; opened := opened w |}).

(** [buildAuthorizationUrl(domain, clientId, scopes, state)] *)
Definition buildAuthorizationUrl (env : environment)
  (domain clientId scopes state : jsstring) : jsstring :=
  let params :=
    URLSearchParams_toString env
      [ (js "client_id", clientId); (js "scope", scopes);
        (js "redirect_uri", REDIRECT_URI); (js "state", state) ] in
  js "https://" ++ domain ++ js "/admin/oauth/authorize?" ++ params.

(** The request [exchangeCodeForToken] sends. *)
Definition access_token_request (domain clientId clientSecret code : jsstring)
  : token_request :=
  {| endpoint := js "https://" ++ domain ++ js "/admin/oauth/access_token";
     client_id := clientId; client_secret := clientSecret; code := code |}.

(** [exchangeCodeForToken(domain, clientId, clientSecret, code)] *)
Definition exchangeCodeForToken (env : environment)
  (domain clientId clientSecret code : jsstring) : io TokenData :=
  response ← do_fetch env (access_token_request domain clientId clientSecret code);
  if negb (ok response) then
    let errorText := text response in
    lift (Throw (js "Failed to exchange code for token: "
                   ++ number_to_string (Num (status response))
                   ++ js " " ++ errorText))
  else
    data ← lift (json response);
    match data with
    | None =>
        (* data.access_token, with data === null *)
        lift (Throw (js "Cannot read properties of null (reading 'access_token')"))
    | Some data =>
        mret {| access_token := granted_token data;
                scope := granted_scope data;
                obtained_at := Date_toISOString env |}
    end.

(** [await callbackPromise]: the value, the rejection, or no continuation
    at all while the promise is pending. *)
Definition await {A} (p : promise A) : option (outcome A) :=
  match p with
  | Pending => None
  | Resolved v => Some (Return v)
  | Rejected message => Some (Throw message)
  end.

(** [runOAuthFlow(domain, clientId, clientSecret, scopes)].  [None] means
    the flow never gets past [await callbackPromise]. *)
Definition runOAuthFlow (env : environment)
  (domain clientId clientSecret : jsstring) (scopes : option jsstring)
  (w : world) : option (outcome TokenData * world) :=
  let effectiveScopes :=
    match scopes with
    | Some ((_ :: _) as given) => given
    | _ => DEFAULT_SCOPES
    end in
  let state := randomBytes_hex env in
  (* Build auth URL and open browser *)
  let authUrl := buildAuthorizationUrl env domain clientId effectiveScopes state in
  (* Start callback server before opening browser *)
  let callbackPromise := callback (startCallbackServer state (traffic env)) in
  (* Open browser *)
  match do_open env authUrl w with
  | (Throw e, w) => Some (Throw e, w)
  | (Return _, w) =>
      (* Wait for callback *)
      match await callbackPromise with
      | None => None
      | Some (Throw e) => Some (Throw e, w)
      | Some (Return (code, shop)) =>
          Some ((tokenData ← exchangeCodeForToken env domain clientId clientSecret code;
                 _ ← do_saveToken domain tokenData;
                 mret tokenData) w)
      end
  end.

(** ** Traffic and environments to try the properties on *)

Definition example_state : jsstring := js "9f86d081884c7d659a2feaa0c55ad015".

(** A callback carrying a state that is not the nonce of the flow. *)
Definition forged_callback : request :=
  {| pathname := js "/callback";
     searchParams := [ (js "code", js "c0de"); (js "state", js "forged");
                       (js "shop", example_domain) ] |}.

(** A callback carrying code and shop but no state at all. *)
Definition stateless_callback : request :=
  {| pathname := js "/callback";
     searchParams := [ (js "code", js "c0de"); (js "shop", example_domain) ] |}.

(** The callback the platform sends after the user has approved. *)
Definition genuine_callback : request :=
  {| pathname := js "/callback";
     searchParams := [ (js "code", js "c0de"); (js "state", example_state);
                       (js "shop", example_domain) ] |}.

Definition favicon_request : request :=
  {| pathname := js "/favicon.ico"; searchParams := [] |}.

(** [key=value] pairs joined by [&]: what [toString] gives when nothing
    needs escaping. *)
Definition plain_query (params : list (jsstring * jsstring)) : jsstring :=
  join (js "&") ((fun kv => kv.1 ++ js "=" ++ kv.2) <$> params).

(** An environment in which the browser opens, the given requests arrive
    at the given times, and the token endpoint answers [answer]. *)
Definition environment_with (requests : list (Z * request))
  (answer : outcome token_response) : environment :=
  {| randomBytes_hex := example_state;
     URLSearchParams_toString := plain_query;
     open := fun _ => Return tt;
     traffic := {| listen_error := None; arrivals := requests |};
     fetch := fun _ => answer;
     Date_toISOString := js "2024-01-01T00:00:00.000Z" |}.

Definition granting_answer : token_response :=
  {| status := 200; text := js "{...}";
     json := Return (Some {| granted_token := Some (js "shpat_1");
                             granted_scope := Some (js "read_products") |}) |}.

(** A 200 answer whose body is the JSON value [null]. *)
Definition null_answer : token_response :=
  {| status := 200; text := js "null"; json := Return None |}.

(** A 200 answer whose body is not JSON, so that [response.json()] throws. *)
Definition garbled_answer : token_response :=
  {| status := 200; text := js "<html>Bad Gateway</html>";
     json := Throw (js "Unexpected token < in JSON at position 0") |}.

Definition refusing_answer : token_response :=
  {| status := 400; text := js "invalid_request"; json := Throw (js "Unexpected token i in JSON at position 0") |}.

Definition untouched_world : world :=
  {| disk := blank_disk; fetched := []; opened := [] |}.

(** The sentence of the specification on the failure of the exchange, read
    as an equivalence: whenever the token endpoint answers, the exchange
    fails exactly when the answer is not successful. *)
Definition exchange_fails_iff_unsuccessful : Prop :=
  ∀ env domain clientId clientSecret code w response,
    fetch env (access_token_request domain clientId clientSecret code)
      = Return response →
    throws (exchangeCodeForToken env domain clientId clientSecret code w).1 = true
    ↔ ok response = false.

End OAuth.


(* ===================================================================== *)
(** * tools/startBulkExport.ts *)
(* ===================================================================== *)

Module StartBulkExport.

Inductive export_type : Type :=
| products
| orders
| customers
| inventory
| custom.

Definition export_type_name (t : export_type) : jsstring :=
  match t with
  | products => js "products"
  | orders => js "orders"
  | customers => js "customers"
  | inventory => js "inventory"
  | custom => js "custom"
  end.

(** [StartBulkExportInput], after the schema filled in its default. *)
Record StartBulkExportInput : Type := {
  type : export_type;
  query : option jsstring;
  dateFrom : option jsstring;
  dateTo : option jsstring;
  customQuery : option jsstring;
  includeMetafields : bool
}.

(** The text of the preset queries, cut at the interpolated places. *)

Definition products_template_1 : jsstring := js "{
    products".

Definition products_template_2 : jsstring := js " {
      edges {
        node {
          id
          title
          handle
          status
          vendor
          productType
          tags
          createdAt
          updatedAt
          variants {
            edges {
              node {
                id
                title
                sku
                price
                compareAtPrice
                inventoryQuantity
                barcode
              }
            }
          }
          images {
            edges {
              node {
                url
                altText
              }
            }
          }
          ".

Definition products_template_3 : jsstring := js "
        }
      }
    }
  }".


Definition orders_template_1 : jsstring := js "{
    orders".

Definition orders_template_2 : jsstring := js " {
      edges {
        node {
          id
          name
          createdAt
          updatedAt
          displayFinancialStatus
          displayFulfillmentStatus
          totalPriceSet {
            shopMoney {
              amount
              currencyCode
            }
          }
          customer {
            id
            email
            firstName
            lastName
          }
          shippingAddress {
            address1
            city
            province
            country
            zip
          }
          lineItems {
            edges {
              node {
                title
                quantity
                sku
                originalUnitPriceSet {
                  shopMoney {
                    amount
                  }
                }
              }
            }
          }
        }
      }
    }
  }".


Definition customers_template_1 : jsstring := js "{
    customers".

Definition customers_template_2 : jsstring := js " {
      edges {
        node {
          id
          email
          firstName
          lastName
          phone
          createdAt
          updatedAt
          ordersCount
          totalSpentV2 {
            amount
            currencyCode
          }
          defaultAddress {
            address1
            city
            province
            country
            zip
          }
          tags
        }
      }
    }
  }".


Definition inventory_template_1 : jsstring := js "{
    inventoryItems {
      edges {
        node {
          id
          sku
          tracked
          inventoryLevels {
            edges {
              node {
                id
                available
                location {
                  id
                  name
                }
              }
            }
          }
          variant {
            id
            title
            product {
              id
              title
            }
          }
        }
      }
    }
  }".


(** [(query: "${text}")] *)
Definition query_argument (text : jsstring) : jsstring :=
  js "(query: " ++ dquote ++ text ++ dquote ++ js ")".

Definition buildProductsQuery (filter : option jsstring)
  (includeMetafields : bool) : jsstring :=
  let metafieldsFragment :=
    if includeMetafields
    then js "metafields(first: 20) { edges { node { namespace key value type }}}"
    else [] in
  let queryArg :=
    match filter with
    | Some ((_ :: _) as filter) => query_argument filter
    | _ => []
    end in
  products_template_1 ++ queryArg ++ products_template_2
    ++ metafieldsFragment ++ products_template_3.

Definition buildOrdersQuery (dateFrom dateTo filter : option jsstring)
  : jsstring :=
  let conditions : list jsstring := [] in
  let conditions :=
    match dateFrom with
    | Some ((_ :: _) as dateFrom) => conditions ++ [js "created_at:>=" ++ dateFrom]
    | _ => conditions
    end in
  let conditions :=
    match dateTo with
    | Some ((_ :: _) as dateTo) => conditions ++ [js "created_at:<=" ++ dateTo]
    | _ => conditions
    end in
  let conditions :=
    match filter with
    | Some ((_ :: _) as filter) => conditions ++ [filter]
    | _ => conditions
    end in
  let queryArg :=
    if (0 <? length conditions)%nat
    then query_argument (join (js " AND ") conditions)
    else [] in
  orders_template_1 ++ queryArg ++ orders_template_2.

Definition buildCustomersQuery (filter : option jsstring) : jsstring :=
  let queryArg :=
    match filter with
    | Some ((_ :: _) as filter) => query_argument filter
    | _ => []
    end in
  customers_template_1 ++ queryArg ++ customers_template_2.

Definition buildInventoryQuery : jsstring := inventory_template_1.

(** What the [bulkOperationRunQuery] mutation answers. *)
Record created_operation : Type := {
  id : jsstring;
  status : jsstring;
  createdAt : jsstring
}.

Record userError : Type := {
  field : list jsstring;
  message : jsstring
}.

Record bulkOperationRunQuery : Type := {
  bulkOperation : option created_operation;
  userErrors : list userError
}.

(** The GraphQL client, for this mutation: from the [query] variable to
    the answer, or to the error [request] throws. *)
Abbreviation client := (jsstring -> outcome bulkOperationRunQuery).

(** The object a successful call returns. *)
Record started : Type := {
  success : bool;
  operationId : jsstring;
  started_status : jsstring;
  started_createdAt : jsstring;
  exportType : export_type;
  started_message : jsstring
}.

(** Build the query based on type: the [switch] that sets [bulkQuery]. *)
Definition bulkQuery (input : StartBulkExportInput) : outcome jsstring :=
  match type input with
  | products => Return (buildProductsQuery (query input) (includeMetafields input))
  | orders => Return (buildOrdersQuery (dateFrom input) (dateTo input) (query input))
  | customers => Return (buildCustomersQuery (query input))
  | inventory => Return buildInventoryQuery
  | custom =>
      match customQuery input with
      | Some ((_ :: _) as customQuery) => Return customQuery
      | _ => Throw (js "customQuery is required when type is 'custom'")
      end
  end.

(** [startBulkExport.execute(input)] *)
Definition execute (shopifyClient : client) (input : StartBulkExportInput)
  : outcome started :=
  catch
    (bulkQuery ← bulkQuery input;
     (* Run the bulk operation *)
     data ← shopifyClient bulkQuery;
     if (0 <? length (userErrors data))%nat then
       Throw (js "Failed to start bulk export: "
                ++ join (js ", ") (message <$> userErrors data))
     else
       match bulkOperation data with
       | None => Throw (js "Bulk operation was not created")
       | Some operation =>
           Return {| success := true;
                     operationId := id operation;
                     started_status := status operation;
                     started_createdAt := createdAt operation;
                     exportType := type input;
                     started_message := js "Bulk export started. Use get-bulk-operation-status to check progress, then get-bulk-operation-results when complete." |}
       end)
    (fun error_message =>
       Throw (js "Failed to start bulk export: " ++ error_message)).

(** The sentence of the specification on rejected submissions, read on the
    thrown message: whenever the mutation answers with user errors, the
    call throws a message in which every reported field and every reported
    message occurs. *)
Definition rejection_lists_fields_and_messages : Prop :=
  ∀ (shopifyClient : client) input q answer,
    bulkQuery input = Return q →
    shopifyClient q = Return answer →
    userErrors answer ≠ [] →
    ∃ thrown, execute shopifyClient input = Throw thrown
      ∧ ∀ e, e ∈ userErrors answer →
          occurs (message e) thrown ∧ ∀ f, f ∈ field e → occurs f thrown.

(** A submission the platform rejects because another job is running. *)
Definition products_export : StartBulkExportInput :=
  {| type := products; query := Some (js "status:active"); dateFrom := None;
     dateTo := None; customQuery := None; includeMetafields := false |}.

Definition already_running : bulkOperationRunQuery :=
  {| bulkOperation := None;
     userErrors :=
       [ {| field := [js "query"];
            message := js "An operation for this app and shop is already in progress" |};
         {| field := [js "base"]; message := js "Try again later" |} ] |}.

End StartBulkExport.


(* ===================================================================== *)
(** * The bulk operation both reading tools query *)
(* ===================================================================== *)

Module BulkOperation.

(** The [BulkOperation] node as the GraphQL client returns it; the two
    tools select different fields of it.  [None] is [null]. *)
Record BulkOperation : Type := {
  id : jsstring;
  status : jsstring;
  type : jsstring;
  createdAt : jsstring;
  completedAt : option jsstring;
  objectCount : jsstring;
  fileSize : option jsstring;
  url : option jsstring;
  partialDataUrl : option jsstring;
  errorCode : option jsstring;
  query : option jsstring
}.

(** The two read queries: by id, or the current operation. *)
Inductive lookup : Type :=
| GetBulkOperation (id : jsstring)
| CurrentBulkOperation.

(** The GraphQL client, for these queries: the node ([None] when there is
    none), or the error [request] throws. *)
Abbreviation client := (lookup -> outcome (option BulkOperation)).

(** Both tools start the same way: [input.operationId] chooses the query. *)
Definition find (shopifyClient : client) (operationId : option jsstring)
  : outcome (option BulkOperation) :=
  match operationId with
  | Some ((_ :: _) as operationId) => shopifyClient (GetBulkOperation operationId)
  | _ => shopifyClient CurrentBulkOperation
  end.

End BulkOperation.


(* ===================================================================== *)
(** * tools/getBulkOperationStatus.ts *)
(* ===================================================================== *)

Module GetBulkOperationStatus.

Import BulkOperation.

(** Format fileSize for readability: the [if]/[else if]/[else] on the
    parsed number of bytes. *)
Definition format_bytes (bytes : number) : jsstring :=
  if gt bytes (Num (1024 * 1024)) then
    match bytes with
    | Num b => toFixed2 b (1024 * 1024) ++ js " MB"
    | NaN => js "NaN MB"
    end
  else if gt bytes (Num 1024) then
    match bytes with
    | Num b => toFixed2 b 1024 ++ js " KB"
    | NaN => js "NaN KB"
    end
  else number_to_string bytes ++ js " bytes".

(** [fileSizeFormatted], from [data.fileSize]. *)
Definition fileSizeFormatted (fileSize : option jsstring) : option jsstring :=
  match fileSize with
  | Some ((_ :: _) as fileSize) =>
      let bytes := parseInt fileSize in
      Some (format_bytes bytes)
  | _ => None
  end.

(** Build progress message. *)
Definition progressMessage (data : BulkOperation) : jsstring :=
  if bool_decide (status data = js "CREATED") then
    js "Operation created, waiting to start..."
  else if bool_decide (status data = js "RUNNING") then
    js "Processing " ++ objectCount data ++ js " objects..."
  else if bool_decide (status data = js "COMPLETED") then
    js "Completed! " ++ objectCount data ++ js " objects exported."
  else if bool_decide (status data = js "FAILED") then
    js "Failed with error: "
      ++ match errorCode data with
         | Some ((_ :: _) as errorCode) => errorCode
         | _ => js "Unknown error"
         end
  else if bool_decide (status data = js "CANCELED") then
    js "Operation was canceled."
  else js "Status: " ++ status data.

Record found_operation : Type := {
  found_id : jsstring;
  found_status : jsstring;
  found_type : jsstring;
  found_createdAt : jsstring;
  found_completedAt : option jsstring;
  found_objectCount : number;
  found_fileSize : option jsstring;
  fileSizeBytes : option number;
  found_url : option jsstring;
  found_partialDataUrl : option jsstring;
  found_errorCode : option jsstring;
  progress : jsstring;
  isComplete : bool;
  isFailed : bool;
  isRunning : bool
}.

(** The object returned: [{ found: false, message }] or the snapshot. *)
Inductive status_result : Type :=
| NotFound (message : jsstring)
| Found (operation : found_operation).

(** [getBulkOperationStatus.execute(input)] *)
Definition execute (shopifyClient : client) (operationId : option jsstring)
  : outcome status_result :=
  catch
    (data ← find shopifyClient operationId;
     match data with
     | None =>
         Return (NotFound
           match operationId with
           | Some ((_ :: _) as operationId) =>
               js "No bulk operation found with ID: " ++ operationId
           | _ => js "No bulk operation currently running or recently completed."
           end)
     | Some data =>
         Return (Found
           {| found_id := id data;
              found_status := status data;
              found_type := type data;
              found_createdAt := createdAt data;
              found_completedAt := completedAt data;
              found_objectCount := parseInt (objectCount data);
              found_fileSize := fileSizeFormatted (fileSize data);
              fileSizeBytes :=
                match fileSize data with
                | Some ((_ :: _) as fileSize) => Some (parseInt fileSize)
                | _ => None
                end;
              found_url := url data;
              found_partialDataUrl := partialDataUrl data;
              found_errorCode := errorCode data;
              progress := progressMessage data;
              isComplete := bool_decide (status data = js "COMPLETED");
              isFailed := bool_decide (status data = js "FAILED");
              isRunning := bool_decide (status data = js "RUNNING")
                           || bool_decide (status data = js "CREATED") |})
     end)
    (fun error_message =>
       Throw (js "Failed to check bulk operation status: " ++ error_message)).

(** The formatter as the specification words it: bytes below 1024,
    kilobytes below 1,048,576, megabytes otherwise. *)
Definition specified_fileSize (b : Z) : jsstring :=
  if b <? 1024 then number_to_string (Num b) ++ js " bytes"
  else if b <? 1048576 then toFixed2 b 1024 ++ js " KB"
  else toFixed2 b 1048576 ++ js " MB".

(** The formatter as the program has it: the thresholds themselves still
    belong to the smaller unit. *)
Definition implemented_fileSize (b : Z) : jsstring :=
  if b <=? 1024 then number_to_string (Num b) ++ js " bytes"
  else if b <=? 1048576 then toFixed2 b 1024 ++ js " KB"
  else toFixed2 b 1048576 ++ js " MB".

End GetBulkOperationStatus.


(* ===================================================================== *)
(** * tools/getBulkOperationResults.ts *)
(* ===================================================================== *)

Module GetBulkOperationResults.

Import BulkOperation.

Inductive output_format : Type :=
| summary
| sample
| full.

(** [GetBulkOperationResultsInput], after the schema filled in its
    defaults; [sampleSize] is any finite number ([z.number()]), held here
    as the rational it is. *)
Record GetBulkOperationResultsInput : Type := {
  operationId : option jsstring;
  format : output_format;
  sampleSize : Q
}.

Definition MAX_FULL_OBJECTS : Z := 1000.

(** [Math.min(a, b)] *)
Definition Math_min (a b : Q) : Q := if Qle_bool a b then a else b.

(** How often the body of [for (let i = 0; i < limit; i++)] runs: once
    for each integer from 0 that is below [limit]. *)
Definition iterations (limit : Q) : nat := Z.to_nat (Qceiling limit).

(** What [fetch(url)] answers: [response.ok], the status line, and the
    body [response.text()] reads. *)
Record download : Type := {
  ok : bool;
  http_status : Z;
  statusText : jsstring;
  text : jsstring
}.

Section Execute.

(** The parsed form of a JSON value is left open. *)
Context {value : Type}.

(** What the tool takes from outside: the GraphQL client, [fetch],
    [JSON.parse] ([None] when it throws), and the [Date] arithmetic that
    turns [completedAt] into the ISO string of the instant seven days
    later ([toISOString] throws on an invalid date). *)
Record environment : Type := {
  shopifyClient : client;
  fetch : jsstring -> outcome download;
  JSON_parse : jsstring -> option value;
  seven_days_after : jsstring -> outcome jsstring
}.

Record summary_data : Type := {
  summary_totalObjects : number;
  summary_fileSize : option jsstring;
  summary_fileSizeBytes : option number;
  summary_downloadUrl : jsstring;
  summary_completedAt : option jsstring;
  summary_expiresAt : option jsstring
}.

Record sample_data : Type := {
  sample_sampleSize : Z;
  sample_totalObjects : number;
  sample_objects : list value;
  sample_downloadUrl : jsstring;
  sample_expiresAt : option jsstring
}.

Record full_data : Type := {
  full_objectCount : Z;
  full_totalObjects : number;
  truncated : bool;
  data : list value;
  full_downloadUrl : jsstring;
  full_expiresAt : option jsstring;
  note : option jsstring
}.

(** The objects the tool returns. *)
Inductive results : Type :=
| NoOperation (error : jsstring)
| NotCompleted (error : jsstring) (id status : jsstring)
    (errorCode : option jsstring)
| NoDownloadUrl (error : jsstring) (id status : jsstring)
| Summary (id : jsstring) (s : summary_data)
| Sample (id : jsstring) (s : sample_data)
| Full (id : jsstring) (f : full_data).

(** Format file size for display; here the test is on the parsed number,
    so that [0] and [NaN] give [null]. *)
Definition fileSizeFormatted (fileSize : option number) : option jsstring :=
  match fileSize with
  | Some (Num b) =>
      if b =? 0 then None
      else if 1024 * 1024 <? b then Some (toFixed2 b (1024 * 1024) ++ js " MB")
      else if 1024 <? b then Some (toFixed2 b 1024 ++ js " KB")
      else Some (number_to_string (Num b) ++ js " bytes")
  | _ => None
  end.

(** The parsing loop [for (let i = 0; i < limit; i++)]: [remaining] is
    [limit - i]; a line that does not parse is skipped. *)
Fixpoint parse_loop (env : environment) (lines : list jsstring)
  (remaining i : nat) (objects : list value) : list value :=
  match remaining with
  | O => objects
  | S remaining =>
      match lines !! i ≫= JSON_parse env with
      | Some parsed => parse_loop env lines remaining (S i) (objects ++ [parsed])
      | None => parse_loop env lines remaining (S i) objects
      end
  end.

(** Calculate expiration (7 days from completion). *)
Definition expiresAt (env : environment) (operationData : BulkOperation)
  : outcome (option jsstring) :=
  match completedAt operationData with
  | Some ((_ :: _) as completedAt) => Some <$> seven_days_after env completedAt
  | _ => Return None
  end.

(** [getBulkOperationResults.execute(input)] *)
Definition execute (env : environment) (input : GetBulkOperationResultsInput)
  : outcome results :=
  catch
    ((* First, get the operation status *)
     operationData ← find (shopifyClient env) (operationId input);
     match operationData with
     | None =>
         Return (NoOperation
           match operationId input with
           | Some ((_ :: _) as operationId) =>
               js "No bulk operation found with ID: " ++ operationId
           | _ => js "No bulk operation found."
           end)
     | Some operationData =>
         (* Check if operation is completed *)
         if bool_decide (status operationData ≠ js "COMPLETED") then
           Return (NotCompleted
             (js "Operation is not completed. Current status: "
                ++ status operationData)
             (id operationData) (status operationData) (errorCode operationData))
         else
           (* Check if URL exists *)
           match url operationData with
           | Some ((_ :: _) as url) =>
               let totalObjects := parseInt (objectCount operationData) in
               let fileSize :=
                 match fileSize operationData with
                 | Some ((_ :: _) as fileSize) => Some (parseInt fileSize)
                 | _ => None
                 end in
               let fileSizeFormatted := fileSizeFormatted fileSize in
               expiresAt ← expiresAt env operationData;
               match format input with
               | summary =>
                   (* For summary format, don't download the file *)
                   Return (Summary (id operationData)
                     {| summary_totalObjects := totalObjects;
                        summary_fileSize := fileSizeFormatted;
                        summary_fileSizeBytes := fileSize;
                        summary_downloadUrl := url;
                        summary_completedAt := completedAt operationData;
                        summary_expiresAt := expiresAt |})
               | _ =>
                   (* For sample and full formats, download and parse the JSONL *)
                   response ← fetch env url;
                   if negb (ok response) then
                     Throw (js "Failed to download results: "
                              ++ number_to_string (Num (http_status response))
                              ++ js " " ++ statusText response)
                   else
                     let jsonlContent := text response in
                     let lines := split 10 (trim jsonlContent) in
                     (* Determine how many objects to parse *)
                     let limit : Q :=
                       match format input with
                       | sample =>
                           Math_min (sampleSize input)
                             (inject_Z (Z.of_nat (length lines)))
                       | _ =>
                           inject_Z (Z.min MAX_FULL_OBJECTS (Z.of_nat (length lines)))
                       end in
                     let objects := parse_loop env lines (iterations limit) 0 [] in
                     match format input with
                     | sample =>
                         Return (Sample (id operationData)
                           {| sample_sampleSize := Z.of_nat (length objects);
                              sample_totalObjects := totalObjects;
                              sample_objects := objects;
                              sample_downloadUrl := url;
                              sample_expiresAt := expiresAt |})
                     | _ =>
                         (* Full format *)
                         Return (Full (id operationData)
                           {| full_objectCount := Z.of_nat (length objects);
                              full_totalObjects := totalObjects;
                              truncated := gt totalObjects (Num MAX_FULL_OBJECTS);
                              data := objects;
                              full_downloadUrl := url;
                              full_expiresAt := expiresAt;
                              note :=
                                if gt totalObjects (Num MAX_FULL_OBJECTS)
                                then Some (js "Results truncated to "
                                             ++ number_to_string (Num MAX_FULL_OBJECTS)
                                             ++ js " objects. Download the full JSONL file for complete data.")
                                else None |})
                     end
               end
           | _ =>
               Return (NoDownloadUrl
                 (js "Operation completed but no download URL available. The results may have expired (7 day limit).")
                 (id operationData) (status operationData))
           end
     end)
    (fun error_message =>
       Throw (js "Failed to get bulk operation results: " ++ error_message)).

End Execute.

Arguments environment value : clear implicits.
Arguments results value : clear implicits.

(** ** Result files to state and try the properties on *)

(** The records of a result file: each on one line, the first starting
    and the last ending with something other than white space (which
    [trim] would take away). *)
Definition starts_without_space (s : jsstring) : Prop :=
  ∃ c, head s = Some c ∧ is_white_space c = false.

Definition ends_without_space (s : jsstring) : Prop :=
  ∃ c, last s = Some c ∧ is_white_space c = false.

Definition one_per_line (records : list jsstring) : Prop :=
  Forall (fun record => 10%N ∉ record) records
  ∧ (∀ first, head records = Some first → starts_without_space first)
  ∧ (∀ final, last records = Some final → ends_without_space final).

(** A JSONL file: the records separated by line feeds, followed by
    [tail] (nothing, or the final line feed). *)
Definition jsonl (records : list jsstring) (tail : jsstring) : jsstring :=
  join [10%N] records ++ tail.

(** A stand-in for [JSON.parse] that accepts the objects [{...}] and
    returns their text. *)
Definition parse_braces (line : jsstring) : option jsstring :=
  match head line, last line with
  | Some 123%N, Some 125%N => Some line
  | _, _ => None
  end.

Definition completed_operation (count : N) : BulkOperation :=
  {| id := js "gid://shopify/BulkOperation/1";
     status := js "COMPLETED";
     type := js "QUERY";
     createdAt := js "2024-01-01T00:00:00Z";
     completedAt := Some (js "2024-01-01T00:10:00Z");
     objectCount := digits_of_N count;
     fileSize := Some (js "2048");
     url := Some (js "https://storage.example/result.jsonl");
     partialDataUrl := None;
     errorCode := None;
     query := None |}.

(** An environment in which the current operation is completed, reports
    [count] objects, and its result file holds [count] records. *)
Definition environment_with_lines (count : nat) : environment jsstring :=
  {| shopifyClient := fun _ => Return (Some (completed_operation (N.of_nat count)));
     fetch := fun _ =>
       Return {| ok := true; http_status := 200; statusText := js "OK";
                 text := jsonl (replicate count (js "{}")) [10%N] |};
     JSON_parse := parse_braces;
     seven_days_after := fun _ => Return (js "2024-01-08T00:10:00.000Z") |}.

Definition full_input : GetBulkOperationResultsInput :=
  {| operationId := None; format := full; sampleSize := inject_Z 10 |}.

(** An environment in which the current operation is completed and
    reports [count] objects, while its result file holds [lines]
    records. *)
Definition environment_reporting (count : N) (lines : nat)
  : environment jsstring :=
  {| shopifyClient := fun _ => Return (Some (completed_operation count));
     fetch := fetch (environment_with_lines lines);
     JSON_parse := parse_braces;
     seven_days_after := seven_days_after (environment_with_lines lines) |}.

(** The sentence of the specification on the [full] format, read on the
    file alone: for a completed operation whose result file holds
    well-formed records, one per line, the call returns the first
    [min(1000, totalLines)] of them and sets [truncated] exactly when the
    file holds more than 1000. *)
Definition truncated_follows_file : Prop :=
  ∀ (env : environment jsstring) input operationData u expires response
    records tail,
    format input = full →
    find (shopifyClient env) (operationId input) = Return (Some operationData) →
    status operationData = js "COMPLETED" →
    url operationData = Some u → u ≠ [] →
    expiresAt env operationData = Return expires →
    fetch env u = Return response → ok response = true →
    text response = jsonl records tail →
    Forall (fun c => is_white_space c = true) tail →
    one_per_line records →
    Forall (fun r => is_Some (JSON_parse env r)) records →
    ∃ f, execute env input = Return (Full (id operationData) f)
         ∧ length (data f) = min 1000 (length records)
         ∧ (truncated f = true ↔ (1000 < length records)%nat).

End GetBulkOperationResults.


(* ===================================================================== *)
(** * index.ts: the entry point that uses the token store and the flow *)
(* ===================================================================== *)

Module Index.

Import OAuth.

(** [a || b] on strings that may be absent: [a] when it is truthy. *)
Definition or_else (a b : option jsstring) : option jsstring :=
  match a with
  | Some (_ :: _) => a
  | _ => b
  end.

(** The options [main] reads from [argv], as strings ([None] when the
    option is not given), and [argv.oauth === true].  [minimist] turns a
    value that looks like a number into a number, a bare flag into [true]
    and a repeated option into an array: such values are outside this
    record, which holds the options that reach [main] as strings. *)
Record command_line : Type := {
  argv_domain : option jsstring;
  argv_clientId : option jsstring;
  argv_clientSecret : option jsstring;
  argv_scopes : option jsstring;
  argv_accessToken : option jsstring;
  argv_oauth : bool
}.

(** The variables [main] reads from [process.env]. *)
Record process_env : Type := {
  env_MYSHOPIFY_DOMAIN : option jsstring;
  env_SHOPIFY_CLIENT_ID : option jsstring;
  env_SHOPIFY_CLIENT_SECRET : option jsstring;
  env_SHOPIFY_SCOPES : option jsstring;
  env_SHOPIFY_ACCESS_TOKEN : option jsstring
}.

(** Get configuration from command line or environment. *)
Definition MYSHOPIFY_DOMAIN (argv : command_line) (penv : process_env) :=
  or_else (argv_domain argv) (env_MYSHOPIFY_DOMAIN penv).
Definition SHOPIFY_CLIENT_ID (argv : command_line) (penv : process_env) :=
  or_else (argv_clientId argv) (env_SHOPIFY_CLIENT_ID penv).
Definition SHOPIFY_CLIENT_SECRET (argv : command_line) (penv : process_env) :=
  or_else (argv_clientSecret argv) (env_SHOPIFY_CLIENT_SECRET penv).
Definition OAUTH_SCOPES (argv : command_line) (penv : process_env) :=
  or_else (argv_scopes argv) (env_SHOPIFY_SCOPES penv).
Definition RUN_OAUTH (argv : command_line) : bool := argv_oauth argv.

(** How [main] ends: [process.exit] after some lines on the error stream;
    the OAuth flow returned, threw (which the handler on [main()] turns
    into an exit with code 1) or never came back; or [startServer] was
    called with an access token and a domain. *)
Inductive ending : Type :=
| Exited (code : Z) (stderr : list jsstring)
| Authorized (tokenData : TokenData) (w : world)
| AuthorizationFailed (error : jsstring) (w : world)
| AuthorizationPending
| Served (accessToken domain : jsstring) (stderr : list jsstring).

(** [`${value}`] of a string that may be [undefined]. *)
Definition interpolate (value : option jsstring) : jsstring :=
  match value with
  | Some text => text
  | None => js "undefined"
  end.

(** [main()] *)
Definition main (argv : command_line) (penv : process_env)
  (env : environment) (w : world) : ending :=
  let DOMAIN := MYSHOPIFY_DOMAIN argv penv in
  let CLIENT_ID := SHOPIFY_CLIENT_ID argv penv in
  let CLIENT_SECRET := SHOPIFY_CLIENT_SECRET argv penv in
  (* Handle OAuth flow mode *)
  if RUN_OAUTH argv then
    match DOMAIN, CLIENT_ID, CLIENT_SECRET with
    | Some ((_ :: _) as domain), Some ((_ :: _) as clientId),
      Some ((_ :: _) as clientSecret) =>
        (* Run OAuth flow and exit *)
        match runOAuthFlow env domain clientId clientSecret
                (OAUTH_SCOPES argv penv) w with
        | Some (Return tokenData, w') => Authorized tokenData w'
        | Some (Throw error, w') => AuthorizationFailed error w'
        | None => AuthorizationPending
        end
    | Some (_ :: _), Some (_ :: _), _ =>
        Exited 1
          [js "Error: --clientSecret or SHOPIFY_CLIENT_SECRET is required for OAuth flow."]
    | Some (_ :: _), _, _ =>
        Exited 1
          [js "Error: --clientId or SHOPIFY_CLIENT_ID is required for OAuth flow."]
    | _, _, _ =>
        Exited 1
          [js "Error: --domain is required for OAuth flow.";
           js "  Example: --domain=your-store.myshopify.com"]
    end
  else
    (* Normal MCP server mode *)
    let accessToken :=
      or_else (argv_accessToken argv) (env_SHOPIFY_ACCESS_TOKEN penv) in
    (* If no access token provided, try to load from saved tokens *)
    let '(accessToken, stderr) :=
      match accessToken, DOMAIN with
      | Some (_ :: _), _ => (accessToken, [])
      | _, Some ((_ :: _) as domain) =>
          match loadToken domain (disk w) with
          | Some (Own savedToken) =>
              (access_token savedToken,
               [js "Using saved token for " ++ domain ++ js " (obtained: "
                  ++ obtained_at savedToken ++ js ")"])
          | Some (Inherited _ | Length _ | Character _) =>
              (* a function, a prototype, a number or a character has
                 neither property *)
              (None,
               [js "Using saved token for " ++ domain ++ js " (obtained: "
                  ++ interpolate None ++ js ")"])
          | None => (accessToken, [])
          end
      | _, _ => (accessToken, [])
      end in
    match accessToken with
    | Some ((_ :: _) as accessToken) =>
        match DOMAIN with
        | Some ((_ :: _) as domain) => Served accessToken domain stderr
        | _ =>
            Exited 1
              (stderr ++
               [js "Error: MYSHOPIFY_DOMAIN is required.";
                js "Please provide it via command line argument or .env file.";
                js "  Command line: --domain=your-store.myshopify.com"])
        end
    | _ =>
        match CLIENT_ID, CLIENT_SECRET with
        | Some (_ :: _), Some (_ :: _) =>
            (* If still no token but we have client credentials, suggest OAuth *)
            Exited 1
              (stderr ++
               [js "Error: No access token found.";
                js "Run with --oauth to authorize and obtain an access token:";
                js "  npx shopify-mcp --oauth --domain="
                  ++ interpolate
                       (or_else DOMAIN (Some (js "your-store.myshopify.com")))])
        | _, _ =>
            (* Validate required configuration *)
            Exited 1
              (stderr ++
               [js "Error: SHOPIFY_ACCESS_TOKEN is required.";
                js "Please provide it via command line argument, .env file, or run OAuth flow.";
                js "  Command line: --accessToken=your_token";
                js "  OAuth flow:   --oauth --domain=your-store.myshopify.com --clientId=xxx --clientSecret=xxx"])
        end
    end.

(** A value is given when it is truthy: present and not empty. *)
Definition given (value : option jsstring) : bool :=
  match value with
  | Some (_ :: _) => true
  | _ => false
  end.

(** ** Command lines to try the properties on *)

Definition no_environment : process_env :=
  {| env_MYSHOPIFY_DOMAIN := None; env_SHOPIFY_CLIENT_ID := None;
     env_SHOPIFY_CLIENT_SECRET := None; env_SHOPIFY_SCOPES := None;
     env_SHOPIFY_ACCESS_TOKEN := None |}.

Definition domain_only (domain : jsstring) : command_line :=
  {| argv_domain := Some domain; argv_clientId := None;
     argv_clientSecret := None; argv_scopes := None;
     argv_accessToken := None; argv_oauth := false |}.

Definition oauth_without_secret : command_line :=
  {| argv_domain := Some example_domain; argv_clientId := Some (js "id");
     argv_clientSecret := None; argv_scopes := None;
     argv_accessToken := None; argv_oauth := true |}.

End Index.


(* ===================================================================== *)
(** * Vocabulary for further properties of the flow *)
(* ===================================================================== *)

Module Traces.

Import OAuth.

(** The answer to a request for any path but [/callback]. *)
Definition not_found_response : response :=
  {| statusCode := 404; headers := []; body := js "Not found" |}.

(** The events that are requests. *)
Definition is_request (e : event) : bool :=
  match e with
  | Incoming _ => true
  | _ => false
  end.

(** What reaches the process while the server runs: a request with its
    target as received, an error of the server, the timer. *)
Inductive arrival : Type :=
| Request (req_url : option jsstring)
| Failure (message : jsstring)
| Timeout.

Definition is_Request (a : arrival) : bool :=
  match a with
  | Request _ => true
  | _ => false
  end.

Definition deliver (new_URL : jsstring -> outcome request)
  (expectedState : jsstring) (s : server) (a : arrival) : outcome server :=
  match a with
  | Request req_url => listener new_URL expectedState req_url s
  | Failure message => Return (on_error message s)
  | Timeout => Return (on_timeout s)
  end.

(** How many of the arrivals are requests. *)
Fixpoint count_requests (arrivals : list arrival) : nat :=
  match arrivals with
  | [] => 0
  | a :: arrivals => (if is_Request a then 1 else 0) + count_requests arrivals
  end.

(** The arrivals handled in turn, until a listener throws: the exception
    is uncaught, and nothing is handled after it. *)
Fixpoint deliver_all (new_URL : jsstring -> outcome request)
  (expectedState : jsstring) (arrivals : list arrival) (s : server)
  : outcome server :=
  match arrivals with
  | [] => Return s
  | a :: arrivals =>
      s ← deliver new_URL expectedState s a;
      deliver_all new_URL expectedState arrivals s
  end.

(** A stand-in for the URL parser on targets without a query: it rejects
    the target ["//"] and takes any other target as the path. *)
Definition path_only (target : jsstring) : outcome request :=
  if bool_decide (target = js "//") then Throw (js "Invalid URL")
  else Return {| pathname := target; searchParams := [] |}.

(** The same surroundings with other traffic on the callback port. *)
Definition with_traffic (env : environment) (other : callback_traffic)
  : environment :=
  {| randomBytes_hex := randomBytes_hex env;
     URLSearchParams_toString := URLSearchParams_toString env;
     open := open env;
     traffic := other;
     fetch := fetch env;
     Date_toISOString := Date_toISOString env |}.

(** The scopes [runOAuthFlow] asks for: [scopes || DEFAULT_SCOPES]. *)
Definition effectiveScopes (scopes : option jsstring) : jsstring :=
  match scopes with
  | Some ((_ :: _) as given) => given
  | _ => DEFAULT_SCOPES
  end.

(** The URL [runOAuthFlow] opens. *)
Definition authUrl (env : environment) (domain clientId : jsstring)
  (scopes : option jsstring) : jsstring :=
  buildAuthorizationUrl env domain clientId (effectiveScopes scopes)
    (randomBytes_hex env).

End Traces.


(** Two string literals differ. *)
Ltac js_discriminate :=
  let H := fresh in intros H; vm_compute in H; discriminate H.


(** The cases of [main] in normal mode. *)
Ltac main_cases argv penv w :=
  destruct (Index.or_else (Index.argv_accessToken argv)
              (Index.env_SHOPIFY_ACCESS_TOKEN penv))
    as [[|? ?]|] eqn:?;
  destruct (Index.MYSHOPIFY_DOMAIN argv penv) as [[|? ?]|] eqn:?;
  cbv beta iota zeta;
  try (match goal with
       | |- context [OAuth.loadToken ?d (OAuth.disk w)] =>
           destruct (OAuth.loadToken d (OAuth.disk w))
             as [[?saved|?name|?n|?c]|] eqn:?;
           cbv beta iota zeta
       end);
  try (match goal with
       | |- context [OAuth.access_token ?saved] =>
           destruct (OAuth.access_token saved) as [[|? ?]|] eqn:?;
           cbv beta iota zeta
       end);
  destruct (Index.SHOPIFY_CLIENT_ID argv penv) as [[|? ?]|],
           (Index.SHOPIFY_CLIENT_SECRET argv penv) as [[|? ?]|].


(* ===================================================================== *)
(** * The definitions on concrete inputs *)
(* ===================================================================== *)

Section Checks.

Example trim_both_ends : trim (js "  {} 	
") = js "{}".
Proof. reflexivity. Qed.

Example split_lines : split 10 (js "a
b

c") = [js "a"; js "b"; js ""; js "c"].
Proof. reflexivity. Qed.

Example split_empty : split 10 [] = [[]].
Proof. reflexivity. Qed.

Example parseInt_prefix : parseInt (js " 42px") = Num 42.
Proof. reflexivity. Qed.

Example parseInt_negative : parseInt (js "-7") = Num (-7).
Proof. reflexivity. Qed.

Example parseInt_no_digit : parseInt (js "bytes") = NaN.
Proof. reflexivity. Qed.

Example toFixed2_tie : toFixed2 1 8 = js "0.13".
Proof. reflexivity. Qed.

Example toFixed2_down : toFixed2 1025 1024 = js "1.00".
Proof. reflexivity. Qed.

Example redirect_uri : OAuth.REDIRECT_URI = js "http://localhost:3456/callback".
Proof. reflexivity. Qed.

Example default_scopes :
  OAuth.DEFAULT_SCOPES
  = js "read_products,write_products,read_customers,write_customers,read_orders,write_orders,read_inventory,write_inventory,read_locations,read_content,write_content".
Proof. reflexivity. Qed.

Example orders_conditions :
  StartBulkExport.buildOrdersQuery (Some (js "2024-01-01")) None (Some (js "tag:vip"))
  = StartBulkExport.orders_template_1
      ++ js "(query: " ++ dquote ++ js "created_at:>=2024-01-01 AND tag:vip"
      ++ dquote ++ js ")" ++ StartBulkExport.orders_template_2.
Proof. reflexivity. Qed.

Example custom_without_query :
  StartBulkExport.execute (fun _ => Throw (js "unreachable"))
    {| StartBulkExport.type := StartBulkExport.custom;
       StartBulkExport.query := None; StartBulkExport.dateFrom := None;
       StartBulkExport.dateTo := None; StartBulkExport.customQuery := None;
       StartBulkExport.includeMetafields := false |}
  = Throw (js "Failed to start bulk export: customQuery is required when type is 'custom'").
Proof. reflexivity. Qed.

(** The genuine callback resolves the promise, is answered 200 and closes
    the server; the flow then exchanges the code and saves the token. *)
Example genuine_callback_resolves :
  let s := OAuth.on_request OAuth.example_state OAuth.genuine_callback OAuth.listening in
  OAuth.callback s = OAuth.Resolved (js "c0de", OAuth.example_domain)
  ∧ OAuth.statusCode <$> OAuth.sent s = [200]
  ∧ OAuth.closed s = true.
Proof. by vm_compute. Qed.

Example oauth_flow_succeeds :
  let env := OAuth.environment_with [(2000, OAuth.genuine_callback)]
               (Return OAuth.granting_answer) in
  ∃ w', OAuth.runOAuthFlow env OAuth.example_domain (js "id") (js "secret") None
          OAuth.untouched_world
        = Some (Return OAuth.example_token, w')
      ∧ OAuth.loadToken OAuth.example_domain (OAuth.disk w')
        = Some (OAuth.Own OAuth.example_token)
      ∧ length (OAuth.fetched w') = 1%nat.
Proof. eexists. split; [by vm_compute|]. by vm_compute. Qed.

(** Keys that are array indices, and keys that are not. *)
Example array_indices :
  OAuth.array_index (js "0") = Some 0%nat
  ∧ OAuth.array_index (js "12") = Some 12%nat
  ∧ OAuth.array_index (js "012") = None
  ∧ OAuth.array_index (js "4294967295") = None
  ∧ OAuth.array_index (js "length") = None
  ∧ OAuth.array_index OAuth.example_domain = None.
Proof. split_and!; reflexivity. Qed.

(** A credential file holding an array: a save under an index stores an
    element (the hole before it is written as [null]), a save under
    [length] throws, and a save under a domain is lost. *)
Example saving_into_an_array :
  let stored := OAuth.disk_holding
                  (OAuth.Parsed (OAuth.Array [None; Some OAuth.example_token])) in
  OAuth.saveToken (js "1") OAuth.example_token OAuth.array_disk
  = (Return tt, stored)
  ∧ OAuth.loadToken (js "1") stored = Some (OAuth.Own OAuth.example_token)
  ∧ OAuth.loadToken (js "0") stored = None
  ∧ OAuth.loadToken (js "length") stored = Some (OAuth.Length 2)
  ∧ OAuth.loadToken (js "length") OAuth.array_disk = None
  ∧ OAuth.loadToken (js "map") stored = Some (OAuth.Inherited (js "map"))
  ∧ OAuth.saveToken (js "length") OAuth.example_token OAuth.array_disk
    = (Throw (js "Invalid array length"), OAuth.array_disk)
  ∧ OAuth.saveToken OAuth.example_domain OAuth.example_token OAuth.array_disk
    = (Return tt, OAuth.array_disk).
Proof. cbn zeta. split_and!; reflexivity. Qed.

(** A credential file holding a string or a number. *)
Example lookups_in_primitives :
  let text := OAuth.disk_holding
                (OAuth.Parsed (OAuth.Primitive (OAuth.json_string (js "abc")))) in
  let number := OAuth.disk_holding
                  (OAuth.Parsed (OAuth.Primitive (OAuth.json_number (js "42")))) in
  OAuth.loadToken (js "0") text = Some (OAuth.Character 97)
  ∧ OAuth.loadToken (js "length") text = Some (OAuth.Length 3)
  ∧ OAuth.loadToken (js "trim") text = Some (OAuth.Inherited (js "trim"))
  ∧ OAuth.loadToken OAuth.example_domain text = None
  ∧ OAuth.loadToken (js "toFixed") number = Some (OAuth.Inherited (js "toFixed"))
  ∧ OAuth.loadToken (js "length") number = None
  ∧ (OAuth.saveToken (js "0") OAuth.example_token text).1
    = Throw (js "Cannot assign to read only property '0' of string 'abc'")
  ∧ OAuth.saveToken (js "__proto__") OAuth.example_token number
    = (Return tt, number).
Proof. cbn zeta. split_and!; reflexivity. Qed.

(** The listener on a target that parses and on one that does not. *)
Example listener_on_targets :
  OAuth.listener Traces.path_only OAuth.example_state (Some (js "/favicon.ico"))
    OAuth.listening
  = Return {| OAuth.closed := false; OAuth.callback := OAuth.Pending;
              OAuth.sent := [Traces.not_found_response] |}
  ∧ OAuth.listener Traces.path_only OAuth.example_state (Some (js "//"))
      OAuth.listening
    = Throw (js "Invalid URL").
Proof. split; reflexivity. Qed.

(** A sample size that is no integer: the loop runs while [i < 2.5]. *)
Example sample_of_two_and_a_half :
  GetBulkOperationResults.iterations
    (GetBulkOperationResults.Math_min (5 # 2) (inject_Z 7)) = 3%nat
  ∧ GetBulkOperationResults.iterations
      (GetBulkOperationResults.Math_min (5 # 2) (inject_Z 2)) = 2%nat
  ∧ GetBulkOperationResults.iterations
      (GetBulkOperationResults.Math_min (-1 # 2) (inject_Z 2)) = 0%nat.
Proof. split_and!; reflexivity. Qed.

Example callback_without_code :
  let req := {| OAuth.pathname := js "/callback";
                OAuth.searchParams := [ (js "state", OAuth.example_state);
                                        (js "code", js "");
                                        (js "shop", OAuth.example_domain) ] |} in
  OAuth.callback (OAuth.on_request OAuth.example_state req OAuth.listening)
  = OAuth.Rejected OAuth.missing_code_or_shop.
Proof. by vm_compute. Qed.

Example status_of_running_operation :
  GetBulkOperationStatus.progressMessage
    {| BulkOperation.id := js "gid://shopify/BulkOperation/1";
       BulkOperation.status := js "RUNNING"; BulkOperation.type := js "QUERY";
       BulkOperation.createdAt := js "2024-01-01T00:00:00Z";
       BulkOperation.completedAt := None; BulkOperation.objectCount := js "12";
       BulkOperation.fileSize := None; BulkOperation.url := None;
       BulkOperation.partialDataUrl := None; BulkOperation.errorCode := None;
       BulkOperation.query := None |}
  = js "Processing 12 objects...".
Proof. by vm_compute. Qed.

End Checks.


(* ===================================================================== *)
(** * Outcomes *)
(* ===================================================================== *)

Section Outcomes.

Lemma Return_inj {A} (a a' : A) : Return a = Return a' → a = a'.
Proof. congruence. Qed.

Lemma Throw_inj {A} (e e' : jsstring) : @Throw A e = Throw e' → e = e'.
Proof. congruence. Qed.

End Outcomes.


(* ===================================================================== *)
(** * Properties of the token store *)
(* ===================================================================== *)

Section TokenStore.

Import OAuth.

Implicit Types (d domain : jsstring) (r : TokenData) (fs : filesystem)
  (tokens : TokenStore) (value : parsed)
  (elements : list (option TokenData)).

(** A write creates or replaces the own property, except for the one key
    the prototype's setter takes. *)
Lemma set_property_insert tokens d r :
  d ≠ js "__proto__" ∨ is_Some (tokens !! d) →
  set_property tokens d r = <[d := r]> tokens.
Proof.
  intros Hd. unfold set_property.
  destruct (tokens !! d) eqn:Hlook; [done|].
  destruct Hd as [Hd | [? ?]]; [|done].
  by rewrite bool_decide_eq_false_2.
Qed.

Lemma get_property_own tokens d r :
  tokens !! d = Some r → get_property tokens d = Some (Own r).
Proof. intros H. unfold get_property. by rewrite H. Qed.

(** A read of a key that is neither stored nor inherited is [undefined]. *)
Lemma get_property_undefined tokens d :
  tokens !! d = None → d ∉ Object_prototype_properties →
  get_property tokens d = None.
Proof.
  intros H Hd. unfold get_property. rewrite H.
  by rewrite bool_decide_eq_false_2.
Qed.

(** What [saveToken] does when it has a store to start from: it returns,
    and leaves the store with the property set. *)
Lemma saveToken_store d r fs :
  starts_from_store fs = true →
  saveToken d r fs
  = (Return tt,
     {| TOKEN_DIR := Some (default 448 (TOKEN_DIR fs));
        TOKEN_FILE := Some (default 384 (fst <$> TOKEN_FILE fs),
                            Json (set_property (stored_tokens fs) d r)) |}).
Proof.
  unfold saveToken, starts_from_store, stored_tokens.
  by destruct (TOKEN_DIR fs), (TOKEN_FILE fs) as [[mode [|[stored| |p|elements]]]|].
Qed.

Lemma saveToken_file d r fs :
  starts_from_store fs = true →
  TOKEN_FILE (saveToken d r fs).2
  = Some (match TOKEN_FILE fs with Some (mode, _) => mode | None => 384 end,
          Json (set_property (stored_tokens fs) d r)).
Proof.
  intros Hfs. rewrite saveToken_store by done. cbn.
  by destruct (TOKEN_FILE fs) as [[mode ?]|].
Qed.

Lemma stored_tokens_saveToken d r fs :
  starts_from_store fs = true →
  stored_tokens (saveToken d r fs).2 = set_property (stored_tokens fs) d r.
Proof. intros Hfs. unfold stored_tokens at 1. by rewrite saveToken_file. Qed.

Lemma starts_from_store_saveToken d r fs :
  starts_from_store fs = true → starts_from_store (saveToken d r fs).2 = true.
Proof. intros Hfs. by rewrite saveToken_store. Qed.

(** Saving then loading gives the record back when there was a store to
    start from, for every domain but [__proto__] (and for that one too
    when the file already has an entry of that name). *)
Lemma saveToken_loadToken d r fs :
  starts_from_store fs = true →
  d ≠ js "__proto__" ∨ is_Some (stored_tokens fs !! d) →
  (saveToken d r fs).1 = Return tt
  ∧ loadToken d (saveToken d r fs).2 = Some (Own r).
Proof.
  intros Hfs Hd. split; [by rewrite saveToken_store|].
  unfold loadToken. rewrite saveToken_file by done.
  rewrite set_property_insert by done.
  by rewrite (get_property_own _ _ r) by apply lookup_insert_eq.
Qed.

(** Saving is then an upsert that leaves the other entries alone. *)
Lemma saveToken_upsert d r fs :
  starts_from_store fs = true →
  d ≠ js "__proto__" ∨ is_Some (stored_tokens fs !! d) →
  stored_tokens (saveToken d r fs).2 !! d = Some r
  ∧ ∀ d', d' ≠ d →
      stored_tokens (saveToken d r fs).2 !! d' = stored_tokens fs !! d'.
Proof.
  intros Hfs Hd. rewrite stored_tokens_saveToken, set_property_insert by done.
  split; [apply lookup_insert_eq|].
  intros d' Hne. by apply lookup_insert_ne.
Qed.

Lemma set_property_lookup_ne tokens d d' r :
  d' ≠ d → set_property tokens d r !! d' = tokens !! d'.
Proof.
  intros Hne. unfold set_property.
  destruct (tokens !! d); [by apply lookup_insert_ne|].
  case_bool_decide; [done|by apply lookup_insert_ne].
Qed.

(** Other entries are untouched whatever the domain is. *)
Lemma saveToken_frame d r fs d' :
  starts_from_store fs = true →
  d' ≠ d → stored_tokens (saveToken d r fs).2 !! d' = stored_tokens fs !! d'.
Proof.
  intros Hfs Hne. rewrite stored_tokens_saveToken by done.
  by apply set_property_lookup_ne.
Qed.

Lemma set_property_overwrite tokens d r r' :
  set_property (set_property tokens d r) d r' = set_property tokens d r'.
Proof.
  destruct (decide (d ≠ js "__proto__" ∨ is_Some (tokens !! d))) as [Hd | Hd].
  - rewrite !(set_property_insert tokens) by done.
    rewrite set_property_insert by (right; rewrite lookup_insert_eq; eauto).
    apply insert_insert_eq.
  - assert (d = js "__proto__") as Hproto
      by (destruct (decide (d = js "__proto__")); [done|tauto]).
    assert (tokens !! d = None) as Hnone
      by (destruct (tokens !! d) eqn:?; [exfalso; eauto|done]).
    assert (∀ x, set_property tokens d x = tokens) as Hsame.
    { intros x. unfold set_property. rewrite Hnone.
      by rewrite bool_decide_eq_true_2. }
    by rewrite !Hsame.
Qed.

(** ** Arrays *)

Lemma length_set_element elements i r :
  length (set_element elements i r) = max (length elements) (S i).
Proof.
  unfold set_element. destruct (Nat.ltb_spec i (length elements)).
  - rewrite length_insert. lia.
  - rewrite !length_app, length_replicate. cbn. lia.
Qed.



Lemma set_element_overwrite elements i r r' :
  set_element (set_element elements i r) i r' = set_element elements i r'.
Proof.
  unfold set_element at 1. rewrite length_set_element.
  destruct (Nat.ltb_spec i (max (length elements) (S i))); [|lia].
  unfold set_element. destruct (Nat.ltb_spec i (length elements)).
  - apply list_insert_insert_eq.
  - rewrite app_assoc, insert_app_r_alt
      by (rewrite length_app, length_replicate; lia).
    rewrite length_app, length_replicate.
    replace (i - (length elements + (i - length elements)))%nat with 0%nat by lia.
    by rewrite <- app_assoc.
Qed.



Lemma array_index_not_length d i : array_index d = Some i → d ≠ js "length".
Proof. intros Hd ->. vm_compute in Hd. discriminate Hd. Qed.

(** ** The assignment, twice *)

(** A second assignment to the same key finds what the first would have
    found: the outcome does not depend on the first record. *)
Lemma assign_twice value d r r' :
  match assign value d r with
  | Return value' => assign value' d r' = assign value d r'
  | Throw e => ∃ e', assign value d r' = Throw e'
  end.
Proof.
  destruct value as [stored| |p|elements]; cbn [assign].
  - by rewrite set_property_overwrite.
  - eauto.
  - case_bool_decide as Hproto.
    + cbn [assign]. by rewrite bool_decide_eq_true_2.
    + destruct p as [rendered|b|s]; [eauto|eauto|].
      destruct (array_index d) as [i|].
      * destruct (i <? length s)%nat; eauto.
      * case_bool_decide; eauto.
  - destruct (array_index d) as [i|] eqn:Hindex.
    + cbn [assign]. rewrite Hindex. by rewrite set_element_overwrite.
    + case_bool_decide as Hlength; [eauto|].
      cbn [assign]. rewrite Hindex. by rewrite bool_decide_eq_false_2.
Qed.

Lemma assign_throws_alike value d r r' e :
  assign value d r = Throw e → assign value d r' = Throw e.
Proof.
  destruct value as [stored| |p|elements]; cbn [assign]; [done|done| |].
  - case_bool_decide; [done|].
    destruct p as [rendered|b|s]; [done|done|].
    destruct (array_index d) as [i|]; [by destruct (i <? length s)%nat|].
    by case_bool_decide.
  - destruct (array_index d) as [i|]; [done|]. by case_bool_decide.
Qed.

(** The last save wins, whatever the file held. *)
Lemma saveToken_overwrite d r r' fs :
  saveToken d r' (saveToken d r fs).2 = saveToken d r' fs.
Proof.
  unfold saveToken.
  destruct (TOKEN_DIR fs) as [dir|], (TOKEN_FILE fs) as [[mode [|value]]|];
    cbn [assign snd TOKEN_DIR TOKEN_FILE];
    try (by rewrite set_property_overwrite).
  - pose proof (assign_twice value d r r') as Htwice.
    destruct (assign value d r) as [value'|e] eqn:Hfirst;
      cbn [snd TOKEN_DIR TOKEN_FILE].
    + rewrite Htwice. destruct (assign value d r') as [value''|e] eqn:Hsecond;
        [done|].
      apply (assign_throws_alike _ _ _ r) in Hsecond. congruence.
    + by rewrite (assign_throws_alike _ _ _ _ _ Hfirst).
  - pose proof (assign_twice value d r r') as Htwice.
    destruct (assign value d r) as [value'|e] eqn:Hfirst;
      cbn [snd TOKEN_DIR TOKEN_FILE].
    + rewrite Htwice. destruct (assign value d r') as [value''|e] eqn:Hsecond;
        [done|].
      apply (assign_throws_alike _ _ _ r) in Hsecond. congruence.
    + by rewrite (assign_throws_alike _ _ _ _ _ Hfirst).
Qed.

(** Saving the same record twice is the same as saving it once. *)
Lemma saveToken_idempotent d r fs :
  saveToken d r (saveToken d r fs).2 = saveToken d r fs.
Proof. apply saveToken_overwrite. Qed.

(** An unparseable file is replaced by a store holding the new entry only. *)
Lemma saveToken_corrupted d r mode dir :
  d ≠ js "__proto__" →
  stored_tokens
    (saveToken d r {| TOKEN_DIR := dir; TOKEN_FILE := Some (mode, Unparseable) |}).2
  = {[ d := r ]}.
Proof.
  intros Hd. rewrite stored_tokens_saveToken by done. cbn.
  by rewrite set_property_insert by (by left).
Qed.

(** [loadToken] gives [null] when there is no file, when the file is not
    JSON, when it holds [null], and when it holds a store in which the
    domain is neither stored nor a property every object inherits. *)
Lemma loadToken_not_found d fs :
  TOKEN_FILE fs = None
  ∨ (∃ mode, TOKEN_FILE fs = Some (mode, Unparseable))
  ∨ (∃ mode, TOKEN_FILE fs = Some (mode, Parsed Null))
  ∨ (starts_from_store fs = true
     ∧ stored_tokens fs !! d = None ∧ d ∉ Object_prototype_properties) →
  loadToken d fs = None.
Proof.
  unfold loadToken, stored_tokens, starts_from_store.
  intros [-> | [[mode ->] | [[mode ->] | (Hfs & Hnone & Hd)]]]; [done..|].
  destruct (TOKEN_FILE fs) as [[mode [|[stored| |p|elements]]]|]; try done.
  by rewrite get_property_undefined.
Qed.

(** No name with a dot in it is inherited, so for a domain such as
    [shop.myshopify.com] that has no entry, [loadToken] gives [null]. *)
Lemma dotted_not_inherited d : 46%N ∈ d → d ∉ Object_prototype_properties.
Proof.
  intros Hdot Hin. unfold Object_prototype_properties in Hin.
  apply list_elem_of_In in Hin. cbn [fmap list_fmap In] in Hin.
  repeat (destruct Hin as [<- | Hin];
          [apply list_elem_of_In in Hdot; vm_compute in Hdot;
           intuition discriminate|]).
  done.
Qed.

Lemma loadToken_not_found_dotted d fs :
  starts_from_store fs = true →
  46%N ∈ d → stored_tokens fs !! d = None → loadToken d fs = None.
Proof.
  intros Hfs Hdot Hnone. apply loadToken_not_found. right. right. right.
  split_and!; [done|done|by apply dotted_not_inherited].
Qed.

End TokenStore.

Section TokenStoreClaims.

Import OAuth.

(** No host name is the key the prototype setter takes. *)
Lemma hostname_not_proto (d : jsstring) : hostname d = true → d ≠ js "__proto__".
Proof. intros Hd ->. vm_compute in Hd. discriminate Hd. Qed.

(** The round trip, where it holds: for every domain that is a host name
    and every record, when the credential file is absent, is not JSON or
    holds a JSON object, [saveToken] returns and [loadToken] then returns
    the record. *)
Lemma saveToken_loadToken_hostname (d : jsstring) (r : TokenData)
  (fs : filesystem) :
  hostname d = true →
  starts_from_store fs = true →
  (saveToken d r fs).1 = Return tt
  ∧ loadToken d (saveToken d r fs).2 = Some (Own r).
Proof.
  intros Hd Hfs. apply saveToken_loadToken; [done|].
  left. by apply hostname_not_proto.
Qed.

(** C1. Saving a record and loading it again should give the record back
    whatever the credential file held.  It does when the file is absent,
    is not JSON or holds a JSON object ([saveToken_loadToken_hostname]).
    When the file holds the JSON value [null], [saveToken] throws instead
    of starting afresh, and nothing is stored; when it holds the empty
    array, [saveToken] returns, the file is rewritten as it was, and
    [loadToken] finds nothing. *)
Theorem saveToken_loadToken_fails_on_json_value :
  hostname example_domain = true
  ∧ saveToken example_domain example_token null_disk
    = (Throw (js "Cannot set properties of null (setting 'shop.myshopify.com')"),
       null_disk)
  ∧ loadToken example_domain null_disk = None
  ∧ (saveToken example_domain example_token array_disk).1 = Return tt
  ∧ loadToken example_domain
      (saveToken example_domain example_token array_disk).2 = None.
Proof. split_and!; reflexivity. Qed.

(** The upsert, where it holds: for every domain that is a host name,
    every record and every disk whose credential file holds a JSON
    object, [saveToken] rewrites the file to the same store with the
    domain mapped to the record, every other entry unchanged; saving
    twice gives the same disk as saving once, whatever the file held; and
    an unparseable file is rewritten to the store holding the domain's
    entry only. *)
Lemma saveToken_upsert_hostname (d : jsstring) (r : TokenData) (fs : filesystem) :
  hostname d = true →
  (∀ mode tokens, TOKEN_FILE fs = Some (mode, Json tokens) →
     TOKEN_FILE (saveToken d r fs).2 = Some (mode, Json (<[d := r]> tokens))
     ∧ <[d := r]> tokens !! d = Some r
     ∧ ∀ d', d' ≠ d → <[d := r]> tokens !! d' = tokens !! d')
  ∧ saveToken d r (saveToken d r fs).2 = saveToken d r fs
  ∧ (∀ mode, TOKEN_FILE fs = Some (mode, Unparseable) →
       TOKEN_FILE (saveToken d r fs).2 = Some (mode, Json {[ d := r ]})).
Proof.
  intros Hd%hostname_not_proto. split_and!.
  - intros mode tokens Hfile.
    rewrite saveToken_file by (unfold starts_from_store; by rewrite Hfile).
    unfold stored_tokens. rewrite Hfile.
    rewrite set_property_insert by (by left).
    split_and!; [done|apply lookup_insert_eq|].
    intros d' Hne. by apply lookup_insert_ne.
  - apply saveToken_idempotent.
  - intros mode Hfile.
    rewrite saveToken_file by (unfold starts_from_store; by rewrite Hfile).
    unfold stored_tokens. rewrite Hfile.
    by rewrite set_property_insert by (by left).
Qed.

(** C4. [saveToken] should rewrite a well-formed credential file so that
    the domain maps to the record.  It does when the file holds a JSON
    object ([saveToken_upsert_hostname]).  The JSON values [null], [42]
    and [[]] are well-formed too: on the first two the assignment throws,
    outside the [try] that guards the parse, and the file is left as it
    was; on the array the call returns and writes the array back without
    the record.  In none of the three does the domain map to the record
    afterwards. *)
Theorem saveToken_no_upsert_on_json_value :
  let number_disk := disk_holding (Parsed (Primitive (json_number (js "42")))) in
  hostname example_domain = true
  ∧ (saveToken example_domain example_token null_disk).1
    = Throw (js "Cannot set properties of null (setting 'shop.myshopify.com')")
  ∧ TOKEN_FILE (saveToken example_domain example_token null_disk).2
    = Some (384, Parsed Null)
  ∧ (saveToken example_domain example_token number_disk).1
    = Throw (js "Cannot create property 'shop.myshopify.com' on number '42'")
  ∧ TOKEN_FILE (saveToken example_domain example_token number_disk).2
    = Some (384, Parsed (Primitive (json_number (js "42"))))
  ∧ saveToken example_domain example_token array_disk = (Return tt, array_disk)
  ∧ stored_tokens (saveToken example_domain example_token array_disk).2
      !! example_domain = None
  ∧ (* while an unparseable file, which the [try] does catch, is replaced *)
    stored_tokens (saveToken example_domain example_token corrupted_disk).2
      !! example_domain = Some example_token.
Proof. cbn zeta. split_and!; reflexivity. Qed.

(** The one key for which the round trip fails on a store is not a host
    name: the write [tokens["__proto__"] = tokenData] goes to the prototype
    setter, nothing is stored, and [loadToken] returns
    [Object.prototype]. *)
Remark saveToken_loadToken_proto (r : TokenData) :
  hostname (js "__proto__") = false
  ∧ stored_tokens (saveToken (js "__proto__") r blank_disk).2 = ∅
  ∧ loadToken (js "__proto__") (saveToken (js "__proto__") r blank_disk).2
    = Some (Inherited (js "__proto__")).
Proof. by vm_compute. Qed.

(** C5. [loadToken] should return [null] when the file holds no entry for
    the domain.  It does unless the domain is the name of a property every
    object inherits ([loadToken_not_found]); for the host name
    [constructor] and a file with a single entry for another shop, it
    returns the inherited [Object] function instead of [null]. *)
Theorem loadToken_constructor_not_null :
  let fs := disk_with {[ example_domain := example_token ]} in
  hostname (js "constructor") = true
  ∧ stored_tokens fs !! js "constructor" = None
  ∧ loadToken (js "constructor") fs = Some (Inherited (js "constructor"))
  ∧ loadToken (js "constructor") fs ≠ None.
Proof.
  cbn zeta.
  assert (({[ example_domain := example_token ]} : TokenStore)
            !! js "constructor" = None) as Hnone
    by (apply lookup_singleton_ne; js_discriminate).
  assert (loadToken (js "constructor")
            (disk_with {[ example_domain := example_token ]})
          = Some (Inherited (js "constructor"))) as Hloaded.
  { unfold loadToken, get_property, disk_with, disk_holding; cbn [TOKEN_FILE].
    rewrite Hnone. by vm_compute. }
  split_and!; [done|done|done|by rewrite Hloaded].
Qed.

End TokenStoreClaims.


(* ===================================================================== *)
(** * Properties of the callback server *)
(* ===================================================================== *)

Section CallbackServer.

Import OAuth.

Implicit Types (st expectedState : jsstring) (s : server) (req : request)
  (e : event) (events : list event).

Lemma run_app st events1 events2 s :
  run st (events1 ++ events2) s = run st events2 (run st events1 s).
Proof. apply fold_left_app. Qed.

Lemma run_cons st e events s :
  run st (e :: events) s = run st events (handle st s e).
Proof. done. Qed.

Lemma settle_settled {A} (p new : promise A) : p ≠ Pending → settle p new = p.
Proof. by destruct p. Qed.

(** A request for another path is answered 404 and changes nothing else. *)
Lemma on_request_other_path st req s :
  pathname req ≠ js "/callback" →
  on_request st req s
  = respond {| statusCode := 404; headers := []; body := js "Not found" |} s.
Proof. intros Hpath. unfold on_request. by rewrite bool_decide_eq_true_2. Qed.

(** A callback whose state is not the expected one. *)
Lemma on_request_mismatch st req s :
  pathname req = js "/callback" →
  searchParams_get (searchParams req) (js "state") ≠ Some st →
  on_request st req s
  = reject invalid_state (close (respond invalid_state_response s)).
Proof.
  intros Hpath Hstate. unfold on_request.
  rewrite bool_decide_eq_false_2 by (intros Hne; by apply Hne).
  by rewrite bool_decide_eq_true_2.
Qed.

(** Every handler settles the promise at most: a settled promise stays. *)
Lemma handle_settled st s e :
  callback s ≠ Pending → callback (handle st s e) = callback s.
Proof.
  intros Hs. destruct e as [req | message |]; cbn [handle].
  - unfold on_request. repeat case_bool_decide; [done| |].
    + cbn. by apply settle_settled.
    + destruct (searchParams_get (searchParams req) (js "code")) as [[|? ?]|],
               (searchParams_get (searchParams req) (js "shop")) as [[|? ?]|];
        cbn; by apply settle_settled.
  - cbn. by apply settle_settled.
  - cbn. by apply settle_settled.
Qed.

Lemma run_settled st events s :
  callback s ≠ Pending → callback (run st events s) = callback s.
Proof.
  revert s. induction events as [|e events IH]; intros s Hs; [done|].
  rewrite run_cons, IH; rewrite handle_settled; done.
Qed.

Lemma released_handle st s e : released s → released (handle st s e).
Proof.
  unfold released. intros Hs.
  destruct e as [req | message |]; cbn [handle].
  - unfold on_request. repeat case_bool_decide.
    + by cbn.
    + cbn. destruct (callback s); cbn; auto.
    + destruct (searchParams_get (searchParams req) (js "code")) as [[|? ?]|],
               (searchParams_get (searchParams req) (js "shop")) as [[|? ?]|];
        cbn; destruct (callback s); cbn; auto.
  - cbn. destruct (callback s); cbn; eauto.
  - cbn. destruct (callback s); cbn; auto.
Qed.

Lemma released_run st events s : released s → released (run st events s).
Proof.
  revert s. induction events as [|e events IH]; intros s Hs; [done|].
  rewrite run_cons. by apply IH, released_handle.
Qed.

Lemma released_listed s :
  released s → listed_outcome (callback s) → closed s = true.
Proof.
  unfold released, listed_outcome.
  destruct (callback s) as [| |message]; [done|done|].
  intros [Hclosed | [cause ->]]; [done|].
  intros [H | [H | H]]; exfalso; revert H; js_discriminate.
Qed.

(** Until the timer fires, requests for other paths leave the promise
    pending. *)
Lemma run_other_paths st (reqs : list request) s :
  Forall (fun req => pathname req ≠ js "/callback") reqs →
  callback (run st (Incoming <$> reqs) s) = callback s.
Proof.
  revert s. induction reqs as [|req reqs IH]; intros s Hall; [done|].
  apply Forall_cons in Hall as [Hreq Hall].
  rewrite fmap_cons, run_cons, IH by done.
  cbn [handle]. by rewrite on_request_other_path.
Qed.

(** Once every event has been delivered the promise is settled. *)
Lemma startCallbackServer_settles st traffic :
  callback (startCallbackServer st traffic) ≠ Pending.
Proof.
  unfold startCallbackServer, timeline.
  destruct (listen_error traffic) as [message|].
  - by cbn.
  - rewrite run_app, (run_app _ [TimerFired]).
    rewrite run_settled; cbn; by destruct (callback _).
Qed.

End CallbackServer.

Section CallbackServerClaims.

Import OAuth.

(** The flow always comes to an end, since the callback promise settles. *)
Lemma runOAuthFlow_completes env domain clientId clientSecret scopes w :
  is_Some (runOAuthFlow env domain clientId clientSecret scopes w).
Proof.
  unfold runOAuthFlow.
  pose proof (startCallbackServer_settles (randomBytes_hex env) (traffic env))
    as Hsettled.
  destruct (do_open env _ w) as [[[]|e] w1]; [|done].
  destruct (callback _) as [|[code shop]|message]; cbn; done.
Qed.

(** The flow stops at a rejected callback promise: it fails without having
    sent anything to the token endpoint or written anything to disk, and,
    when the browser could be opened, with the error of the promise. *)
Lemma runOAuthFlow_rejected env domain clientId clientSecret scopes w message :
  callback (startCallbackServer (randomBytes_hex env) (traffic env))
    = Rejected message →
  ∃ e w', runOAuthFlow env domain clientId clientSecret scopes w
            = Some (Throw e, w')
          ∧ fetched w' = fetched w ∧ disk w' = disk w
          ∧ ((∀ url, open env url = Return tt) → e = message).
Proof.
  intros Hrejected. unfold runOAuthFlow. rewrite Hrejected.
  unfold do_open. destruct (open env _) as [[]|e] eqn:Hopen; cbn.
  - eauto 10.
  - eexists _, _. split_and!; [done..|].
    intros Hopens. by rewrite Hopens in Hopen.
Qed.

(** C2. A request to [/callback] whose [state] is not the expected nonce
    (or is missing), reaching a server whose promise is still pending,
    rejects the promise with the invalid-state error, is answered with
    HTTP 400, closes the listener; the flow then fails without ever
    sending a request to the token endpoint. *)
Theorem state_mismatch_rejects env domain clientId clientSecret scopes w
  before req after :
  let st := randomBytes_hex env in
  let s := run st before listening in
  let s' := handle st s (Incoming req) in
  timeline (traffic env) = before ++ Incoming req :: after →
  callback s = Pending →
  pathname req = js "/callback" →
  searchParams_get (searchParams req) (js "state") ≠ Some st →
  callback s' = Rejected invalid_state
  ∧ sent s' = sent s ++ [invalid_state_response]
  ∧ statusCode invalid_state_response = 400
  ∧ closed s' = true
  ∧ callback (startCallbackServer st (traffic env)) = Rejected invalid_state
  ∧ ∃ e w', runOAuthFlow env domain clientId clientSecret scopes w
              = Some (Throw e, w')
            ∧ fetched w' = fetched w ∧ disk w' = disk w
            ∧ ((∀ url, open env url = Return tt) → e = invalid_state).
Proof.
  intros st s s' Htimeline Hpending Hpath Hstate.
  assert (s' = reject invalid_state (close (respond invalid_state_response s)))
    as Hs' by (by apply on_request_mismatch).
  assert (callback s' = Rejected invalid_state) as Hrejected
    by (rewrite Hs'; cbn; by rewrite Hpending).
  assert (callback (startCallbackServer st (traffic env)) = Rejected invalid_state)
    as Hfinal.
  { unfold startCallbackServer. rewrite Htimeline, run_app, run_cons.
    fold s s'. rewrite run_settled; [done|by rewrite Hrejected]. }
  split_and!; [done|by rewrite Hs'|done|by rewrite Hs'|done|].
  by eapply runOAuthFlow_rejected.
Qed.

Lemma state_mismatch_rejects_witness :
  let env := environment_with [(1000, favicon_request); (2000, forged_callback)]
               (Return granting_answer) in
  ∃ w', runOAuthFlow env example_domain (js "id") (js "secret") None
          untouched_world = Some (Throw invalid_state, w')
        ∧ fetched w' = [] ∧ disk w' = blank_disk.
Proof.
  intros env.
  destruct (state_mismatch_rejects env example_domain (js "id") (js "secret")
              None untouched_world [Incoming favicon_request] forged_callback
              [TimerFired])
    as (_ & _ & _ & _ & _ & e & w' & Hflow & Hfetched & Hdisk & Herror).
  - reflexivity.
  - reflexivity.
  - reflexivity.
  - intros H; vm_compute in H; discriminate H.
  - exists w'. rewrite <- (Herror (fun _ => eq_refl)).
    split_and!; [exact Hflow|exact Hfetched|exact Hdisk].
Defined.

(** C3. Whatever events have been delivered to the callback server
    (requests, errors, the timer, in any order), once the promise has
    settled with one of the listed outcomes (matching callback, state
    mismatch, missing code or shop, timeout) the listener has been closed.
    The promise always settles; when no callback request arrives within
    the five minutes it is rejected with the timeout error. *)
Theorem listener_closed_on_every_outcome st traffic :
  (∀ delivered s,
      s = run st delivered listening →
      listed_outcome (callback s) → closed s = true)
  ∧ callback (startCallbackServer st traffic) ≠ Pending
  ∧ (listen_error traffic = None →
     Forall (fun a => TIMEOUT_MS ≤ a.1 ∨ pathname a.2 ≠ js "/callback")
       (arrivals traffic) →
     callback (startCallbackServer st traffic) = Rejected timed_out
     ∧ closed (startCallbackServer st traffic) = true)
  ∧ TIMEOUT_MS = 300000.
Proof.
  split_and!; [| apply startCallbackServer_settles | | done].
  - intros delivered s ->. apply released_listed, released_run. by cbn.
  - intros Hlisten Harrivals.
    assert (callback (startCallbackServer st traffic) = Rejected timed_out)
      as Htimed_out.
    { unfold startCallbackServer, timeline. rewrite Hlisten.
      rewrite run_app, (run_app _ [TimerFired]).
      set (early := filter (fun a => a.1 < TIMEOUT_MS) (arrivals traffic)).
      assert (callback (run st (Incoming ∘ snd <$> early) listening) = Pending)
        as Hearly.
      { rewrite list_fmap_compose, run_other_paths; [done|].
        apply Forall_fmap, Forall_forall. intros a Ha.
        apply list_elem_of_filter in Ha as [Hbefore Ha].
        rewrite Forall_forall in Harrivals.
        destruct (Harrivals a Ha) as [Hlate | Hpath]; [lia|done]. }
      assert (callback (run st [TimerFired] (run st (Incoming ∘ snd <$> early) listening))
              = Rejected timed_out) as Hfired.
      { rewrite run_cons. cbn [run fold_left handle on_timeout reject close callback].
        by rewrite Hearly. }
      rewrite run_settled; [done|by rewrite Hfired]. }
    split; [done|].
    apply released_listed.
    + apply released_run. by cbn.
    + rewrite Htimed_out. cbn. auto.
Qed.

Lemma listener_closed_on_every_outcome_witness :
  let traffic := {| listen_error := None;
                    arrivals := [(1000, favicon_request); (2000, genuine_callback);
                                 (400000, forged_callback)] |} in
  let s := run example_state [Incoming favicon_request; Incoming genuine_callback]
             listening in
  callback s = Resolved (js "c0de", example_domain) ∧ closed s = true.
Proof.
  intros traffic s.
  destruct (listener_closed_on_every_outcome example_state traffic)
    as (Hclosed & _).
  split; [reflexivity|].
  apply (Hclosed [Incoming favicon_request; Incoming genuine_callback] s).
  - reflexivity.
  - exact I.
Defined.

(** C10. The state check comes before the check for code and shop: a
    callback without [state], even with both code and shop, rejects the
    promise with the invalid-state error and is answered 400, never with
    the missing-code-or-shop error; and the missing-code-or-shop rejection
    happens only for a callback whose state is the expected nonce. *)
Theorem state_checked_before_code_and_shop st req s :
  let s' := on_request st req s in
  callback s = Pending →
  pathname req = js "/callback" →
  (searchParams_get (searchParams req) (js "state") = None →
   callback s' = Rejected invalid_state
   ∧ sent s' = sent s ++ [invalid_state_response]
   ∧ statusCode invalid_state_response = 400
   ∧ callback s' ≠ Rejected missing_code_or_shop)
  ∧ (callback s' = Rejected missing_code_or_shop →
     searchParams_get (searchParams req) (js "state") = Some st).
Proof.
  intros s' Hpending Hpath.
  assert (@Rejected (jsstring * jsstring) invalid_state
            ≠ Rejected missing_code_or_shop) as Hdiffer by js_discriminate.
  split.
  - intros Hnone.
    assert (s' = reject invalid_state (close (respond invalid_state_response s)))
      as -> by (apply on_request_mismatch; [done|by rewrite Hnone]).
    cbn. by rewrite Hpending.
  - intros Hmissing.
    destruct (decide (searchParams_get (searchParams req) (js "state") = Some st))
      as [|Hstate]; [done|].
    exfalso. apply Hdiffer. rewrite <- Hmissing.
    unfold s'. rewrite on_request_mismatch by done. cbn. by rewrite Hpending.
Qed.

Lemma state_checked_before_code_and_shop_witness :
  let s' := on_request example_state stateless_callback listening in
  searchParams_get (searchParams stateless_callback) (js "code") = Some (js "c0de")
  ∧ searchParams_get (searchParams stateless_callback) (js "shop") = Some example_domain
  ∧ callback s' = Rejected invalid_state
  ∧ callback s' ≠ Rejected missing_code_or_shop.
Proof.
  intros s'.
  destruct (state_checked_before_code_and_shop example_state stateless_callback
              listening eq_refl eq_refl) as [Hstateless _].
  destruct (Hstateless eq_refl) as (Hrejected & _ & _ & Hnot_missing).
  split_and!; [reflexivity|reflexivity|exact Hrejected|exact Hnot_missing].
Defined.

End CallbackServerClaims.


(* ===================================================================== *)
(** * Properties of the token exchange *)
(* ===================================================================== *)

Section TokenExchange.

Import OAuth.

(** C6, as stated: the exchange does not fail only on an unsuccessful
    answer.  A 200 answer whose body is not JSON makes [response.json()]
    throw, and the exchange fails although the answer was successful. *)
Lemma exchange_fails_on_successful_answer :
  let env := environment_with [] (Return garbled_answer) in
  ok garbled_answer = true
  ∧ (exchangeCodeForToken env example_domain (js "id") (js "secret") (js "c0de")
       untouched_world).1
    = Throw (js "Unexpected token < in JSON at position 0")
  ∧ ¬ exchange_fails_iff_unsuccessful.
Proof.
  split_and!; [reflexivity|reflexivity|].
  intros Hstated.
  pose proof (Hstated (environment_with [] (Return garbled_answer))
                example_domain (js "id") (js "secret") (js "c0de")
                untouched_world garbled_answer eq_refl) as [Hfails _].
  by specialize (Hfails eq_refl).
Qed.

(** C6, amended.  When the token endpoint answers, the exchange has sent
    exactly one request; it fails when the answer is not successful, with
    an error carrying the status and the body text.  On a successful
    answer it fails with the parse error when the body is not JSON, and
    with a [TypeError] when the body is the JSON value [null]; for every
    other JSON body it returns the record made of the body's members
    [access_token] and [scope] ([undefined] where the body has none) and
    of the current time.  When the request itself fails, so does the
    exchange. *)
Theorem exchangeCodeForToken_outcome env domain clientId clientSecret code w :
  let request := access_token_request domain clientId clientSecret code in
  let result := (exchangeCodeForToken env domain clientId clientSecret code w).1 in
  let w' := (exchangeCodeForToken env domain clientId clientSecret code w).2 in
  fetched w' = fetched w ++ [request] ∧ disk w' = disk w
  ∧ (∀ e, fetch env request = Throw e → result = Throw e)
  ∧ ∀ response, fetch env request = Return response →
      (ok response = false →
       result = Throw (js "Failed to exchange code for token: "
                         ++ number_to_string (Num (status response))
                         ++ js " " ++ text response))
      ∧ (ok response = true → ∀ data, json response = Return (Some data) →
         result = Return {| access_token := granted_token data;
                            scope := granted_scope data;
                            obtained_at := Date_toISOString env |})
      ∧ (ok response = true → ∀ e, json response = Throw e → result = Throw e)
      ∧ (ok response = true → json response = Return None →
         result
         = Throw (js "Cannot read properties of null (reading 'access_token')"))
      ∧ (throws result = true
         ↔ ok response = false ∨ throws (json response) = true
           ∨ json response = Return None).
Proof.
  intros request result w'. subst result w'.
  unfold exchangeCodeForToken, mbind, io_bind, do_fetch. fold request.
  destruct (fetch env request) as [response|e] eqn:Hfetch; cbn [fst snd].
  - destruct (ok response) eqn:Hok; cbn [negb].
    + unfold lift. destruct (json response) as [[data|]|e] eqn:Hjson; cbn.
      * split_and!; [done|done|done|].
        intros ? [= <-]. rewrite Hok, Hjson.
        split_and!; [done|intros _ ?; congruence|done|done|].
        cbn. intuition congruence.
      * split_and!; [done|done|done|].
        intros ? [= <-]. rewrite Hok, Hjson.
        split_and!; [done|done|done|done|]. cbn. intuition congruence.
      * split_and!; [done|done|done|].
        intros ? [= <-]. rewrite Hok, Hjson.
        split_and!; [done|done|intros _ ?; congruence|done|].
        cbn. intuition congruence.
    + cbn. split_and!; [done|done|done|].
      intros ? [= <-]. rewrite Hok.
      split_and!; [done|done|done|done|]. cbn. intuition congruence.
  - split_and!; [done|done|intros ?; congruence|done].
Qed.

Lemma exchangeCodeForToken_outcome_witness :
  let env := environment_with [] (Return granting_answer) in
  (exchangeCodeForToken env example_domain (js "id") (js "secret") (js "c0de")
     untouched_world).1
  = Return {| access_token := Some (js "shpat_1");
              scope := Some (js "read_products");
              obtained_at := js "2024-01-01T00:00:00.000Z" |}.
Proof.
  intros env.
  destruct (exchangeCodeForToken_outcome env example_domain (js "id")
              (js "secret") (js "c0de") untouched_world)
    as (_ & _ & _ & Hanswered).
  destruct (Hanswered granting_answer eq_refl) as (_ & Hgranted & _).
  exact (Hgranted eq_refl _ eq_refl).
Defined.

(** A successful answer whose body is [null], or an object without the
    two members. *)
Example exchange_of_null_and_empty_bodies :
  let empty_answer :=
    {| status := 200; text := js "{}";
       json := Return (Some {| granted_token := None; granted_scope := None |}) |} in
  (exchangeCodeForToken (environment_with [] (Return null_answer))
     example_domain (js "id") (js "secret") (js "c0de") untouched_world).1
  = Throw (js "Cannot read properties of null (reading 'access_token')")
  ∧ (exchangeCodeForToken (environment_with [] (Return empty_answer))
       example_domain (js "id") (js "secret") (js "c0de") untouched_world).1
    = Return {| access_token := None; scope := None;
                obtained_at := js "2024-01-01T00:00:00.000Z" |}.
Proof. split; reflexivity. Qed.

End TokenExchange.


(* ===================================================================== *)
(** * Properties of numbers and their decimal form *)
(* ===================================================================== *)

Section Numbers.

Lemma is_digit_not_white_space c : is_digit c = true → is_white_space c = false.
Proof.
  unfold is_digit, is_white_space. intros Hc.
  apply andb_true_iff in Hc as [Hlo Hhi].
  apply N.leb_le in Hlo, Hhi.
  apply not_true_is_false. intros Hws.
  rewrite !orb_true_iff, !andb_true_iff, !N.eqb_eq, !N.leb_le in Hws. lia.
Qed.

Lemma is_digit_not_sign c :
  is_digit c = true → ((c =? 43) || (c =? 45))%N = false ∧ (c =? 45)%N = false.
Proof.
  unfold is_digit. intros Hc.
  apply andb_true_iff in Hc as [Hlo Hhi].
  apply N.leb_le in Hlo, Hhi.
  split; apply not_true_is_false; intros H;
    rewrite ?orb_true_iff, !N.eqb_eq in H; lia.
Qed.

Lemma digits_of_uint_digits u : Forall (fun c => is_digit c = true) (digits_of_uint u).
Proof. induction u; cbn [digits_of_uint]; constructor; done. Qed.

Lemma uint_of_digits_of_uint u : uint_of_digits (digits_of_uint u) = u.
Proof. induction u; cbn [digits_of_uint uint_of_digits]; [done|..]; by rewrite IHu. Qed.

Lemma digit_prefix_digits ds :
  Forall (fun c => is_digit c = true) ds → digit_prefix ds = ds.
Proof.
  induction 1 as [|c ds Hc _ IH]; [done|]. cbn. by rewrite Hc, IH.
Qed.

Lemma digits_of_N_nonempty n : digits_of_N n ≠ [].
Proof.
  unfold digits_of_N. destruct n as [|p]; [done|]. cbn [N.to_uint].
  pose proof (DecimalPos.Unsigned.to_uint_nonnil p) as Hnonnil.
  by destruct (Pos.to_uint p).
Qed.

Lemma digits_value_of_N n : digits_value (digits_of_N n) = n.
Proof.
  unfold digits_value, digits_of_N.
  rewrite uint_of_digits_of_uint. apply DecimalN.Unsigned.of_to.
Qed.

(** [parseInt] reads back the decimal digits of a natural number. *)
Lemma parseInt_digits_of_N n : parseInt (digits_of_N n) = Num (Z.of_N n).
Proof.
  pose proof (digits_of_N_nonempty n) as Hnonempty.
  pose proof (digits_value_of_N n) as Hvalue.
  assert (Forall (fun c => is_digit c = true) (digits_of_N n)) as Hdigits
    by apply digits_of_uint_digits.
  unfold parseInt.
  destruct (digits_of_N n) as [|c ds]; [done|].
  apply Forall_cons in Hdigits as Hc. destruct Hc as [Hc _].
  cbn [trimStart]. rewrite (is_digit_not_white_space c Hc).
  destruct (is_digit_not_sign c Hc) as [-> ->].
  rewrite digit_prefix_digits by done. rewrite Hvalue.
  f_equal. lia.
Qed.

(** [toFixed(2)] prints the hundredths nearest to the quotient. *)
Lemma toFixed2_nearest num den :
  0 ≤ num → 0 < den →
  ∃ n, toFixed2 num den = two_decimals n ∧ 0 ≤ n
       ∧ 2 * Z.abs (100 * num - n * den) ≤ den.
Proof.
  intros Hnum Hden. exists ((200 * num + den) / (2 * den)).
  split; [done|].
  pose proof (Z.div_mod (200 * num + den) (2 * den) ltac:(lia)) as Hdiv.
  pose proof (Z.mod_pos_bound (200 * num + den) (2 * den) ltac:(lia)) as Hmod.
  assert (0 ≤ (200 * num + den) / (2 * den)) by (apply Z.div_pos; lia).
  split; [done|]. lia.
Qed.

End Numbers.


(* ===================================================================== *)
(** * Properties of the status tool *)
(* ===================================================================== *)

Section FileSize.

Import BulkOperation GetBulkOperationStatus.

Lemma format_bytes_implemented b :
  format_bytes (Num b) = implemented_fileSize b.
Proof.
  unfold format_bytes, implemented_fileSize, gt.
  change (1024 * 1024) with 1048576.
  destruct (Z.ltb_spec 1048576 b), (Z.leb_spec b 1048576); try lia;
    destruct (Z.ltb_spec 1024 b), (Z.leb_spec b 1024); try lia; done.
Qed.

(** C7, as stated: a size of exactly 1024 bytes should be shown in
    kilobytes and one of exactly 1,048,576 bytes in megabytes; the program
    keeps both in the smaller unit. *)
Lemma fileSizeFormatted_at_thresholds :
  fileSizeFormatted (Some (js "1024")) = Some (js "1024 bytes")
  ∧ specified_fileSize 1024 = js "1.00 KB"
  ∧ fileSizeFormatted (Some (js "1048576")) = Some (js "1024.00 KB")
  ∧ specified_fileSize 1048576 = js "1.00 MB"
  ∧ fileSizeFormatted (Some (digits_of_N 1024)) ≠ Some (specified_fileSize 1024).
Proof. split_and!; [by vm_compute..|js_discriminate]. Qed.

(** C7, amended.  A byte count [b] below 2^53, given in decimal, is shown
    as ["{b} bytes"] up to and including 1024, as [b / 1024] rounded to
    two decimals and [" KB"] up to and including 1,048,576, and as
    [b / 1,048,576] rounded to two decimals and [" MB"] above. *)
Theorem fileSizeFormatted_thresholds (b : Z) :
  0 ≤ b < 2 ^ 53 →
  fileSizeFormatted (Some (digits_of_N (Z.to_N b))) = Some (implemented_fileSize b)
  ∧ (b ≤ 1024 →
     implemented_fileSize b = digits_of_N (Z.to_N b) ++ js " bytes")
  ∧ (1024 < b ≤ 1048576 →
     ∃ n, implemented_fileSize b = two_decimals n ++ js " KB"
          ∧ 2 * Z.abs (100 * b - n * 1024) ≤ 1024)
  ∧ (1048576 < b →
     ∃ n, implemented_fileSize b = two_decimals n ++ js " MB"
          ∧ 2 * Z.abs (100 * b - n * 1048576) ≤ 1048576)
  ∧ fileSizeFormatted (Some (js "500")) = Some (js "500 bytes")
  ∧ fileSizeFormatted (Some (js "2048")) = Some (js "2.00 KB")
  ∧ fileSizeFormatted (Some (js "5242880")) = Some (js "5.00 MB").
Proof.
  intros [Hb _].
  split_and!; [| | | |by vm_compute..].
  - unfold fileSizeFormatted.
    pose proof (digits_of_N_nonempty (Z.to_N b)) as Hnonempty.
    pose proof (parseInt_digits_of_N (Z.to_N b)) as Hparse.
    destruct (digits_of_N (Z.to_N b)) as [|c ds]; [done|].
    rewrite Hparse, Z2N.id by done. by rewrite format_bytes_implemented.
  - intros Hsmall. unfold implemented_fileSize, number_to_string.
    destruct (Z.leb_spec b 1024); [|lia].
    by destruct (Z.ltb_spec b 0); [lia|].
  - intros [Hlo Hhi]. unfold implemented_fileSize.
    destruct (Z.leb_spec b 1024); [lia|].
    destruct (Z.leb_spec b 1048576); [|lia].
    destruct (toFixed2_nearest b 1024) as (n & -> & _ & Hn); [lia..|eauto].
  - intros Hlo. unfold implemented_fileSize.
    destruct (Z.leb_spec b 1024); [lia|].
    destruct (Z.leb_spec b 1048576); [lia|].
    destruct (toFixed2_nearest b 1048576) as (n & -> & _ & Hn); [lia..|eauto].
Qed.

Lemma fileSizeFormatted_thresholds_witness :
  fileSizeFormatted (Some (digits_of_N 1536)) = Some (js "1.50 KB").
Proof.
  destruct (fileSizeFormatted_thresholds 1536 ltac:(lia)) as (Hshown & _).
  exact Hshown.
Defined.

End FileSize.


(* ===================================================================== *)
(** * Properties of strings *)
(* ===================================================================== *)

Section Strings.

Lemma starts_with_prefix x s : starts_with x (x ++ s) = true.
Proof. induction x as [|c x IH]; [done|]. cbn. by rewrite N.eqb_refl, IH. Qed.

(** [includes] finds every occurrence. *)
Lemma occurs_includes x s : occurs x s → includes s x = true.
Proof.
  intros (before & after & ->).
  induction before as [|c before IH].
  - cbn [app]. destruct (x ++ after) eqn:Heq; cbn [includes];
      rewrite <- Heq, starts_with_prefix; done.
  - cbn [app includes]. rewrite IH. apply orb_true_r.
Qed.

(** Every part occurs in the joined string. *)
Lemma occurs_join sep (parts : list jsstring) p :
  p ∈ parts → occurs p (join sep parts).
Proof.
  induction parts as [|q parts IH]; [by intros ?%elem_of_nil|].
  intros [-> | Hin]%elem_of_cons.
  - destruct parts as [|q' parts].
    + exists [], []. cbn. by rewrite app_nil_r.
    + exists [], (sep ++ join sep (q' :: parts)). done.
  - destruct (IH Hin) as (before & after & Heq).
    destruct parts as [|q' parts]; [by apply elem_of_nil in Hin|].
    exists (q ++ sep ++ before), after.
    change (join sep (q :: q' :: parts)) with (q ++ sep ++ join sep (q' :: parts)).
    rewrite Heq. by rewrite <- !app_assoc.
Qed.

Lemma occurs_app_r x before s : occurs x s → occurs x (before ++ s).
Proof.
  intros (b & a & ->). exists (before ++ b), a. by rewrite <- app_assoc.
Qed.

End Strings.


(* ===================================================================== *)
(** * Properties of the export tool *)
(* ===================================================================== *)

Section ExportTool.

Import StartBulkExport.

(** What the call throws when the platform reports user errors: the
    messages only, joined by commas, behind the prefix the inner [throw]
    and the outer [catch] each put in front. *)
Lemma execute_rejected (shopifyClient : client) input q answer :
  bulkQuery input = Return q →
  shopifyClient q = Return answer →
  userErrors answer ≠ [] →
  execute shopifyClient input
  = Throw (js "Failed to start bulk export: "
             ++ js "Failed to start bulk export: "
             ++ join (js ", ") (message <$> userErrors answer)).
Proof.
  intros Hquery Hanswer Herrors.
  unfold execute, mbind, outcome_bind, bind. rewrite Hquery, Hanswer.
  destruct (userErrors answer); [done|reflexivity].
Qed.

(** C8, as stated: the message thrown for a rejected submission does not
    hold the reported fields.  For the answer [already_running] it reads
    the two messages, and neither ["query"] nor ["base"] occurs in it. *)
Lemma rejection_omits_fields :
  let thrown := js "Failed to start bulk export: Failed to start bulk export: An operation for this app and shop is already in progress, Try again later" in
  execute (fun _ => Return already_running) products_export = Throw thrown
  ∧ includes thrown (js "query") = false
  ∧ includes thrown (js "base") = false
  ∧ ¬ rejection_lists_fields_and_messages.
Proof.
  split_and!; [reflexivity|by vm_compute|by vm_compute|].
  intros Hstated.
  set (shopifyClient := (fun _ => Return already_running) : client).
  set (q := buildProductsQuery (Some (js "status:active")) false).
  assert (userErrors already_running ≠ []) as Herrors by done.
  destruct (Hstated shopifyClient products_export q already_running
              eq_refl eq_refl Herrors) as (thrown & Hthrown & Hlisted).
  set (e := {| field := [js "base"]; message := js "Try again later" |}).
  assert (e ∈ userErrors already_running) as He by (by right; left).
  assert (js "base" ∈ field e) as Hf by (by left).
  pose proof (proj2 (Hlisted e He) (js "base") Hf) as Hfield.
  apply occurs_includes in Hfield.
  rewrite (execute_rejected shopifyClient products_export q already_running
             eq_refl eq_refl Herrors) in Hthrown.
  injection Hthrown as <-. vm_compute in Hfield. discriminate Hfield.
Qed.

(** C8, amended.  Whenever the mutation answers with a non-empty list of
    user errors, the call throws, so no operation id is returned; the
    message is the reported messages joined by [", "] behind the doubled
    prefix, every reported message occurs in it, and it does not depend on
    the reported fields. *)
Theorem execute_rejected_by_platform (shopifyClient : client) input q answer :
  bulkQuery input = Return q →
  shopifyClient q = Return answer →
  userErrors answer ≠ [] →
  execute shopifyClient input
  = Throw (js "Failed to start bulk export: Failed to start bulk export: "
             ++ join (js ", ") (message <$> userErrors answer))
  ∧ (∀ e, e ∈ userErrors answer →
       ∀ thrown, execute shopifyClient input = Throw thrown →
         occurs (message e) thrown)
  ∧ ∀ (otherClient : client) answer',
      otherClient q = Return answer' →
      message <$> userErrors answer' = message <$> userErrors answer →
      execute otherClient input = execute shopifyClient input.
Proof.
  intros Hquery Hanswer Herrors.
  pose proof (execute_rejected _ _ _ _ Hquery Hanswer Herrors) as Hthrown.
  split_and!.
  - rewrite Hthrown. f_equal.
  - intros e He thrown Heq. rewrite Hthrown in Heq.
    assert (thrown = js "Failed to start bulk export: "
                       ++ js "Failed to start bulk export: "
                       ++ join (js ", ") (message <$> userErrors answer))
      as -> by congruence.
    do 2 apply occurs_app_r. apply occurs_join.
    apply list_elem_of_fmap. eauto.
  - intros otherClient answer' Hanswer' Hsame.
    rewrite Hthrown, (execute_rejected otherClient _ _ answer') by
      (try done; intros Hnil; apply Herrors;
       apply (f_equal (fmap message)) in Hnil; rewrite Hsame in Hnil;
       by destruct (userErrors answer)).
    by rewrite Hsame.
Qed.

Lemma execute_rejected_by_platform_witness :
  execute (fun _ => Return already_running) products_export
  = Throw (js "Failed to start bulk export: Failed to start bulk export: An operation for this app and shop is already in progress, Try again later").
Proof.
  destruct (execute_rejected_by_platform (fun _ => Return already_running)
              products_export
              (buildProductsQuery (Some (js "status:active")) false)
              already_running eq_refl eq_refl)
    as (Hthrown & _).
  - discriminate.
  - exact Hthrown.
Defined.

End ExportTool.


(* ===================================================================== *)
(** * Properties of lines *)
(* ===================================================================== *)

Section Lines.

Implicit Types (s r tail : jsstring) (records : list jsstring).

Lemma split_no_separator sep r : sep ∉ r → split sep r = [r].
Proof.
  induction r as [|c r IH]; [done|].
  intros [Hc Hr]%not_elem_of_cons. cbn [split].
  destruct (N.eqb_spec c sep) as [->|_]; [done|]. by rewrite IH.
Qed.

Lemma split_app sep r s :
  sep ∉ r → split sep (r ++ sep :: s) = r :: split sep s.
Proof.
  induction r as [|c r IH]; intros Hr.
  - cbn. by rewrite N.eqb_refl.
  - apply not_elem_of_cons in Hr as [Hc Hr]. cbn [app split].
    destruct (N.eqb_spec c sep) as [->|_]; [done|]. by rewrite IH.
Qed.

(** Splitting the joined records gives the records back. *)
Lemma split_join sep records :
  records ≠ [] → Forall (fun r => sep ∉ r) records →
  split sep (join [sep] records) = records.
Proof.
  induction records as [|r records IH]; [done|].
  intros _ [Hr Hrecords]%Forall_cons.
  destruct records as [|r' records]; [by apply split_no_separator|].
  change (join [sep] (r :: r' :: records))
    with (r ++ sep :: join [sep] (r' :: records)).
  rewrite split_app by done. by rewrite IH.
Qed.

Lemma trimStart_white_space tail s :
  Forall (fun c => is_white_space c = true) tail →
  trimStart (tail ++ s) = trimStart s.
Proof. induction 1 as [|c tail Hc _ IH]; [done|]. cbn. by rewrite Hc. Qed.

Lemma trimStart_head s c :
  head s = Some c → is_white_space c = false → trimStart s = s.
Proof. destruct s as [|c' s]; [done|]. intros [= ->] Hc. cbn. by rewrite Hc. Qed.

Lemma head_rev s : head (rev s) = last s.
Proof.
  induction s as [|c s IH] using rev_ind; [done|].
  by rewrite rev_unit, last_snoc.
Qed.

(** [trim] removes white space after a string that ends without, and
    nothing before a string that starts without. *)
Lemma trim_tail s tail c c' :
  head s = Some c → is_white_space c = false →
  last s = Some c' → is_white_space c' = false →
  Forall (fun c => is_white_space c = true) tail →
  trim (s ++ tail) = s.
Proof.
  intros Hhead Hc Hlast Hc' Htail. unfold trim, trimEnd.
  rewrite (trimStart_head (s ++ tail) c); [|by destruct s|done].
  rewrite rev_app_distr, trimStart_white_space
    by (by apply Forall_rev).
  rewrite (trimStart_head (rev s) c'); [apply rev_involutive| |done].
  by rewrite head_rev.
Qed.

Lemma trim_white_space tail :
  Forall (fun c => is_white_space c = true) tail → trim tail = [].
Proof.
  intros Htail. unfold trim, trimEnd.
  assert (trimStart tail = []) as ->; [|done].
  rewrite <- (app_nil_r tail). by rewrite trimStart_white_space.
Qed.

Lemma head_join sep r records c :
  head r = Some c → head (join sep (r :: records)) = Some c.
Proof. destruct r; [done|]. intros [= ->]. by destruct records. Qed.

Lemma last_join sep records r c :
  last records = Some r → last r = Some c →
  last (join sep records) = Some c.
Proof.
  induction records as [|r' records IH]; [done|].
  destruct records as [|r'' records].
  - by intros [= ->].
  - intros Hlast Hc.
    change (join sep (r' :: r'' :: records))
      with (r' ++ sep ++ join sep (r'' :: records)).
    rewrite !app_assoc. specialize (IH Hlast Hc).
    destruct (join sep (r'' :: records)) as [|c0 rest] using rev_ind; [done|].
    rewrite last_snoc in IH. rewrite app_assoc, last_snoc. done.
Qed.

End Lines.


(* ===================================================================== *)
(** * Properties of the results tool *)
(* ===================================================================== *)

Section Results.

Import BulkOperation GetBulkOperationResults.

Context {value : Type}.

Implicit Types (env : environment value) (lines records : list jsstring).

(** The loop parses the first [limit] lines and keeps those that parse. *)
Lemma parse_loop_omap env lines remaining i objects :
  parse_loop env lines remaining i objects
  = objects ++ omap (JSON_parse env) (take remaining (drop i lines)).
Proof.
  revert i objects. induction remaining as [|remaining IH]; intros i objects.
  - cbn. by rewrite app_nil_r.
  - cbn [parse_loop]. destruct (lines !! i) as [line|] eqn:Hline.
    + rewrite (drop_S _ _ _ Hline).
      cbn [take omap list_omap mbind option_bind].
      destruct (JSON_parse env line) as [parsed|]; rewrite IH; [|done].
      by rewrite <- app_assoc.
    + cbn [mbind option_bind]. rewrite IH.
      apply lookup_ge_None in Hline.
      rewrite !drop_ge by lia. by rewrite !take_nil.
Qed.

Lemma omap_parsed env records :
  Forall (fun r => is_Some (JSON_parse env r)) records →
  length (omap (JSON_parse env) records) = length records.
Proof.
  induction 1 as [|r records [parsed Hr] _ IH]; [done|].
  cbn. rewrite Hr. cbn. by rewrite IH.
Qed.

(** The lines of a well-formed file are its records; an empty file has
    the single empty line. *)
Lemma lines_of_jsonl records tail :
  one_per_line records →
  Forall (fun c => is_white_space c = true) tail →
  split 10 (trim (jsonl records tail))
  = match records with [] => [[]] | _ => records end.
Proof.
  intros (Hlines & Hfirst & Hfinal) Htail. unfold jsonl.
  destruct records as [|r records].
  - cbn [join app]. by rewrite trim_white_space.
  - assert (∃ final, last (r :: records) = Some final) as [final Hlast].
    { destruct (last (r :: records)) eqn:Hlast; [eauto|].
      by apply last_None in Hlast. }
    destruct (Hfirst r eq_refl) as (c & Hhead & Hc).
    destruct (Hfinal final Hlast) as (c' & Hend & Hc').
    rewrite (trim_tail _ tail c c');
      [|by apply head_join|done|by eapply last_join|done|done].
    by apply split_join.
Qed.

Lemma iterations_inject_Z (limit : Z) : iterations (inject_Z limit) = Z.to_nat limit.
Proof. unfold iterations. by rewrite Qceiling_Z. Qed.

(** What the call returns in the [full] format once the file has been
    downloaded. *)
Lemma execute_full env input operationData u expires response :
  format input = full →
  find (shopifyClient env) (operationId input) = Return (Some operationData) →
  status operationData = js "COMPLETED" →
  url operationData = Some u → u ≠ [] →
  expiresAt env operationData = Return expires →
  fetch env u = Return response → ok response = true →
  let lines := split 10 (trim (text response)) in
  let limit := Z.min MAX_FULL_OBJECTS (Z.of_nat (length lines)) in
  let objects := omap (JSON_parse env) (take (Z.to_nat limit) lines) in
  let totalObjects := parseInt (objectCount operationData) in
  ∃ f, execute env input = Return (Full (id operationData) f)
       ∧ data f = objects
       ∧ full_objectCount f = Z.of_nat (length objects)
       ∧ full_totalObjects f = totalObjects
       ∧ truncated f = gt totalObjects (Num MAX_FULL_OBJECTS).
Proof.
  intros Hformat Hfind Hstatus Hurl Hu Hexpires Hfetch Hok lines limit objects
    totalObjects.
  unfold execute, mbind, outcome_bind, bind.
  rewrite Hfind, Hstatus, Hurl.
  rewrite bool_decide_eq_false_2 by (intros Hne; by apply Hne).
  destruct u as [|c u]; [done|].
  rewrite Hexpires, Hformat, Hfetch, Hok. cbn [negb catch].
  rewrite iterations_inject_Z, parse_loop_omap. cbn [app drop].
  eexists. split; [reflexivity|]. by cbn.
Qed.

(** C9, amended.  For a completed operation whose result file consists
    of well-formed records, one per line, the [full] format returns the
    first [min(1000, totalLines)] of them, all parsed.  When the platform
    reports [n] objects for the operation (in decimal, [n] below 2^53),
    the result carries [n] as the total and sets [truncated] exactly when
    [n] exceeds 1000.  So for an operation that reports as many objects as
    its file has lines, 1500 lines give 1000 objects with
    [truncated = true] and 500 lines give 500 objects with
    [truncated = false]. *)
Theorem full_results_capped env input operationData u expires response
  records tail (n : N) :
  format input = full →
  find (shopifyClient env) (operationId input) = Return (Some operationData) →
  status operationData = js "COMPLETED" →
  url operationData = Some u → u ≠ [] →
  expiresAt env operationData = Return expires →
  fetch env u = Return response → ok response = true →
  text response = jsonl records tail →
  Forall (fun c => is_white_space c = true) tail →
  one_per_line records →
  Forall (fun r => is_Some (JSON_parse env r)) records →
  JSON_parse env [] = None →
  objectCount operationData = digits_of_N n →
  Z.of_N n < 2 ^ 53 →
  ∃ f, execute env input = Return (Full (id operationData) f)
       ∧ data f = omap (JSON_parse env) (take 1000 records)
       ∧ length (data f) = min 1000 (length records)
       ∧ full_objectCount f = Z.min 1000 (Z.of_nat (length records))
       ∧ full_totalObjects f = Num (Z.of_N n)
       ∧ (truncated f = true ↔ 1000 < Z.of_N n)
       ∧ (n = N.of_nat (length records) →
          (length records = 1500%nat →
           full_objectCount f = 1000 ∧ truncated f = true)
          ∧ (length records = 500%nat →
             full_objectCount f = 500 ∧ truncated f = false)).
Proof.
  intros Hformat Hfind Hstatus Hurl Hu Hexpires Hfetch Hok Htext Htail
    Hcompact Hparsed Hempty Hreported Hexact.
  destruct (execute_full env input operationData u expires response)
    as (f & Hexecute & Hdata & Hcount & Htotal & Htruncated); [done..|].
  exists f. rewrite Htext, lines_of_jsonl in Hdata, Hcount by done.
  rewrite Hreported, parseInt_digits_of_N in Htotal, Htruncated.
  assert (data f = omap (JSON_parse env) (take 1000 records)) as Hobjects.
  { rewrite Hdata. destruct records as [|r records].
    - replace (Z.to_nat _) with 1%nat by (unfold MAX_FULL_OBJECTS; cbn; lia).
      cbn [take omap list_omap]. by rewrite Hempty.
    - f_equal. unfold MAX_FULL_OBJECTS.
      destruct (decide (length (r :: records) ≤ 1000)%nat).
      + by rewrite !take_ge by lia.
      + f_equal. lia. }
  assert (length (data f) = min 1000 (length records)) as Hlength.
  { rewrite Hobjects, omap_parsed, length_take; [done|].
    by apply Forall_take. }
  assert (full_objectCount f = Z.min 1000 (Z.of_nat (length records))) as Hsize.
  { rewrite Hcount, <- Hdata, Hlength. lia. }
  assert (truncated f = true ↔ 1000 < Z.of_N n) as Hflag.
  { rewrite Htruncated. unfold gt, MAX_FULL_OBJECTS. apply Z.ltb_lt. }
  split_and!; [done..|].
  intros ->. split; intros Hlines.
  - split; [lia|]. apply Hflag. lia.
  - split; [lia|]. apply not_true_is_false. rewrite Hflag. lia.
Qed.

End Results.

Section ResultsExamples.

Import BulkOperation GetBulkOperationResults.

Lemma one_per_line_braces n : one_per_line (replicate n (js "{}")).
Proof.
  split_and!.
  - apply Forall_replicate. intros Hin%list_elem_of_In.
    vm_compute in Hin. intuition discriminate.
  - intros first Hfirst%head_Some_elem_of%elem_of_replicate. destruct Hfirst as [-> _].
    by exists 123%N.
  - intros final Hfinal%last_Some_elem_of%elem_of_replicate. destruct Hfinal as [-> _].
    by exists 125%N.
Qed.

Lemma full_results_capped_witness :
  ∃ f, execute (environment_with_lines 1500) full_input
         = Return (Full (js "gid://shopify/BulkOperation/1") f)
       ∧ full_objectCount f = 1000
       ∧ full_totalObjects f = Num 1500
       ∧ truncated f = true.
Proof.
  destruct (full_results_capped (environment_with_lines 1500) full_input
              (completed_operation 1500) (js "https://storage.example/result.jsonl")
              (Some (js "2024-01-08T00:10:00.000Z"))
              {| ok := true; http_status := 200; statusText := js "OK";
                 text := jsonl (replicate 1500 (js "{}")) [10%N] |}
              (replicate 1500 (js "{}")) [10%N] 1500%N)
    as (f & Hexecute & _ & _ & _ & Htotal & _ & Hlines).
  - reflexivity.
  - reflexivity.
  - reflexivity.
  - reflexivity.
  - discriminate.
  - reflexivity.
  - reflexivity.
  - reflexivity.
  - reflexivity.
  - by repeat constructor.
  - apply (one_per_line_braces 1500).
  - apply Forall_replicate. by eexists.
  - reflexivity.
  - reflexivity.
  - reflexivity.
  - destruct Hlines as [Hlong _]; [by rewrite length_replicate|].
    destruct (Hlong (length_replicate _ _)) as [Hcount Htruncated].
    exists f. split_and!; [exact Hexecute|exact Hcount|exact Htotal|exact Htruncated].
Defined.

(** The two files of the specification, run through the tool. *)
Example full_results_1500_lines :
  ∃ f, execute (environment_with_lines 1500) full_input
         = Return (Full (js "gid://shopify/BulkOperation/1") f)
       ∧ length (data f) = 1000%nat ∧ full_objectCount f = 1000
       ∧ truncated f = true.
Proof. eexists. split; [by vm_compute|]. by vm_compute. Qed.

Example full_results_500_lines :
  ∃ f, execute (environment_with_lines 500) full_input
         = Return (Full (js "gid://shopify/BulkOperation/1") f)
       ∧ length (data f) = 500%nat ∧ full_objectCount f = 500
       ∧ truncated f = false.
Proof. eexists. split; [by vm_compute|]. by vm_compute. Qed.

Lemma Full_inj (id id' : jsstring) (f f' : @full_data jsstring) :
  Return (Full id f) = Return (Full id' f') → f = f'.
Proof. congruence. Qed.

(** C9, as stated: the truncation flag should follow the file.  It follows
    the count the platform reports and nothing else: a file of 1500
    records for an operation reported to hold 3 objects gives 1000
    objects and [truncated = false]. *)
Lemma truncated_ignores_file :
  (∃ f, execute (environment_reporting 3 1500) full_input
          = Return (Full (js "gid://shopify/BulkOperation/1") f)
        ∧ length (data f) = 1000%nat ∧ truncated f = false)
  ∧ ¬ truncated_follows_file.
Proof.
  assert (∃ f, execute (environment_reporting 3 1500) full_input
                 = Return (Full (js "gid://shopify/BulkOperation/1") f)
               ∧ length (data f) = 1000%nat ∧ truncated f = false)
    as (f0 & Hrun & Hlength & Hfalse)
    by (eexists; split; [by vm_compute|]; by vm_compute).
  split; [by exists f0|].
  intros Hstated.
  destruct (Hstated (environment_reporting 3 1500) full_input
              (completed_operation 3) (js "https://storage.example/result.jsonl")
              (Some (js "2024-01-08T00:10:00.000Z"))
              {| ok := true; http_status := 200; statusText := js "OK";
                 text := jsonl (replicate 1500 (js "{}")) [10%N] |}
              (replicate 1500 (js "{}")) [10%N])
    as (f & Hexecute & _ & Hflag).
  - reflexivity.
  - reflexivity.
  - reflexivity.
  - reflexivity.
  - discriminate.
  - reflexivity.
  - reflexivity.
  - reflexivity.
  - reflexivity.
  - by repeat constructor.
  - apply (one_per_line_braces 1500).
  - apply Forall_replicate. by eexists.
  - change (id (completed_operation 3))
      with (js "gid://shopify/BulkOperation/1") in Hexecute.
    rewrite Hrun in Hexecute. apply Full_inj in Hexecute. subst f.
    rewrite length_replicate in Hflag.
    rewrite Hfalse in Hflag. destruct Hflag as [_ Hflag].
    specialize (Hflag ltac:(lia)). discriminate Hflag.
Qed.

End ResultsExamples.


(* ===================================================================== *)
(** * Further properties of the callback server *)
(* ===================================================================== *)

Section CallbackServerMore.

Import OAuth Traces.

Implicit Types (st : jsstring) (s : server) (req : request)
  (events : list event).

Lemma listener_parsed new_URL st req_url url s :
  new_URL (target_of req_url) = Return url →
  listener new_URL st req_url s = Return (on_request st url s).
Proof.
  unfold listener, mbind, outcome_bind, bind. by intros ->.
Qed.

Lemma listener_unparsed new_URL st req_url e s :
  new_URL (target_of req_url) = Throw e →
  listener new_URL st req_url s = Throw e.
Proof.
  unfold listener, mbind, outcome_bind, bind. by intros ->.
Qed.

Lemma deliver_other_paths new_URL st (targets : list (option jsstring)) s :
  Forall (fun req_url =>
            ∃ url, new_URL (target_of req_url) = Return url
                   ∧ pathname url ≠ js "/callback") targets →
  deliver_all new_URL st (Request <$> targets) s
  = Return {| closed := closed s; callback := callback s;
              sent := sent s ++ replicate (length targets) not_found_response |}.
Proof.
  revert s. induction targets as [|req_url targets IH]; intros s Hall.
  - cbn. rewrite app_nil_r. by destruct s.
  - apply Forall_cons in Hall as [(url & Hparsed & Hpath) Hall].
    rewrite fmap_cons. cbn [deliver_all deliver].
    rewrite (listener_parsed _ _ _ url) by done.
    unfold mbind, outcome_bind, bind. rewrite IH by done.
    rewrite on_request_other_path by done.
    cbn. by rewrite <- app_assoc.
Qed.

(** X1. Requests whose target parses to a path other than [/callback]
    are each answered with 404 and nothing else happens: the server stays
    open and the promise pending, however many of them arrive. *)
Theorem other_paths_only_answered new_URL (st : jsstring)
  (targets : list (option jsstring)) :
  Forall (fun req_url =>
            ∃ url, new_URL (target_of req_url) = Return url
                   ∧ pathname url ≠ js "/callback") targets →
  deliver_all new_URL st (Request <$> targets) listening
  = Return {| closed := false; callback := Pending;
              sent := replicate (length targets) not_found_response |}.
Proof. intros Hall. by rewrite deliver_other_paths. Qed.

Lemma other_paths_only_answered_witness :
  deliver_all path_only example_state
    [Request (Some (js "/favicon.ico")); Request None] listening
  = Return {| closed := false; callback := Pending;
              sent := [not_found_response; not_found_response] |}.
Proof.
  apply (other_paths_only_answered path_only example_state
           [Some (js "/favicon.ico"); None]).
  repeat constructor; eexists; (split; [reflexivity|]);
    intros H; vm_compute in H; discriminate H.
Defined.

(** X2. A callback carrying the expected state, on a pending promise:
    with a non-empty code and a non-empty shop it resolves the promise
    with exactly these two and is answered 200; when either is missing or
    empty it rejects with the missing-code-or-shop error and is answered
    400.  Either way the server is closed and one response is sent. *)
Theorem matching_callback_outcome st req s :
  let s' := on_request st req s in
  let code := searchParams_get (searchParams req) (js "code") in
  let shop := searchParams_get (searchParams req) (js "shop") in
  callback s = Pending →
  pathname req = js "/callback" →
  searchParams_get (searchParams req) (js "state") = Some st →
  closed s' = true
  ∧ (∃ r, sent s' = sent s ++ [r]
          ∧ match callback s' with
            | Resolved _ => statusCode r = 200
            | _ => statusCode r = 400
            end)
  ∧ match code, shop with
    | Some (c :: code), Some (h :: shop) =>
        callback s' = Resolved (c :: code, h :: shop)
    | _, _ => callback s' = Rejected missing_code_or_shop
    end.
Proof.
  intros s' code shop Hpending Hpath Hstate. subst s'. unfold on_request.
  rewrite bool_decide_eq_false_2 by (intros Hne; by apply Hne).
  rewrite bool_decide_eq_false_2 by (intros Hne; by apply Hne).
  fold code shop.
  destruct code as [[|c code]|], shop as [[|h shop]|]; cbn;
    rewrite Hpending; cbn; eauto.
Qed.

Lemma matching_callback_outcome_witness :
  callback (on_request example_state genuine_callback listening)
  = Resolved (js "c0de", example_domain).
Proof.
  destruct (matching_callback_outcome example_state genuine_callback listening
              eq_refl eq_refl eq_refl) as (_ & _ & Hresolved).
  exact Hresolved.
Defined.

Lemma handle_closed st s e : closed s = true → closed (handle st s e) = true.
Proof.
  intros Hs. destruct e as [req | message |]; cbn [handle]; [|done..].
  unfold on_request. repeat case_bool_decide; [done|done|].
  by destruct (searchParams_get (searchParams req) (js "code")) as [[|? ?]|],
              (searchParams_get (searchParams req) (js "shop")) as [[|? ?]|].
Qed.

Lemma run_closed st events s : closed s = true → closed (run st events s) = true.
Proof.
  revert s. induction events as [|e events IH]; intros s Hs; [done|].
  rewrite run_cons. by apply IH, handle_closed.
Qed.

(** X3. The server is one-shot: once the promise has settled no later
    request, error or timer changes its outcome, and once the server has
    been closed it stays closed. *)
Theorem first_outcome_is_final st events s :
  (callback s ≠ Pending → callback (run st events s) = callback s)
  ∧ (closed s = true → closed (run st events s) = true).
Proof. split; [apply run_settled|apply run_closed]. Qed.

Lemma first_outcome_is_final_witness :
  let s := on_request example_state forged_callback listening in
  callback (run example_state [Incoming genuine_callback; TimerFired] s)
  = Rejected invalid_state.
Proof.
  intros s.
  destruct (first_outcome_is_final example_state
              [Incoming genuine_callback; TimerFired] s) as [Hfinal _].
  apply Hfinal. discriminate.
Defined.

Lemma handle_sent st s e :
  ∃ r, sent (handle st s e)
       = sent s ++ (if is_request e then [r] else [])
       ∧ (statusCode r = 200 ∨ statusCode r = 400 ∨ statusCode r = 404).
Proof.
  destruct e as [req | message |]; cbn [handle is_request].
  - unfold on_request. repeat case_bool_decide.
    + eexists. split; [done|]. cbn. auto.
    + eexists. split; [done|]. cbn. auto.
    + destruct (searchParams_get (searchParams req) (js "code")) as [[|? ?]|],
               (searchParams_get (searchParams req) (js "shop")) as [[|? ?]|];
        (eexists; split; [done|]; cbn; auto).
  - exists not_found_response. rewrite app_nil_r. cbn. auto.
  - exists not_found_response. rewrite app_nil_r. cbn. auto.
Qed.

Lemma deliver_sent new_URL st s a s' :
  deliver new_URL st s a = Return s' →
  ∃ r, sent s' = sent s ++ (if is_Request a then [r] else [])
       ∧ (statusCode r = 200 ∨ statusCode r = 400 ∨ statusCode r = 404).
Proof.
  destruct a as [req_url | message |]; cbn [deliver is_Request].
  - unfold listener, mbind, outcome_bind, bind.
    destruct (new_URL _) as [url|e]; [|done]. intros <-%Return_inj.
    apply (handle_sent st s (Incoming url)).
  - intros <-%Return_inj. apply (handle_sent st s (ServerError message)).
  - intros <-%Return_inj. apply (handle_sent st s TimerFired).
Qed.

Lemma deliver_throws new_URL st s a e :
  deliver new_URL st s a = Throw e →
  ∃ req_url, a = Request req_url ∧ new_URL (target_of req_url) = Throw e.
Proof.
  destruct a as [req_url | message |]; cbn [deliver]; [|done..].
  unfold listener, mbind, outcome_bind, bind.
  destruct (new_URL _) as [url|e'] eqn:Hparsed; [done|].
  intros <-%Throw_inj. eauto.
Qed.

(** The responses after a run of arrivals, from any state. *)
Lemma deliver_all_sent new_URL st arrivals s0 :
  match deliver_all new_URL st arrivals s0 with
  | Return s =>
      length (sent s) = (length (sent s0) + count_requests arrivals)%nat
      ∧ (Forall (fun r => statusCode r = 200 ∨ statusCode r = 400
                          ∨ statusCode r = 404) (sent s0) →
         Forall (fun r => statusCode r = 200 ∨ statusCode r = 400
                          ∨ statusCode r = 404) (sent s))
  | Throw e =>
      ∃ before req_url after s,
        arrivals = before ++ Request req_url :: after
        ∧ new_URL (target_of req_url) = Throw e
        ∧ deliver_all new_URL st before s0 = Return s
        ∧ length (sent s) = (length (sent s0) + count_requests before)%nat
  end.
Proof.
  revert s0. induction arrivals as [|a arrivals IH]; intros s0.
  - cbn. split; [lia|done].
  - cbn [deliver_all]. unfold mbind, outcome_bind, bind.
    destruct (deliver new_URL st s0 a) as [s1|e] eqn:Hfirst.
    + destruct (deliver_sent _ _ _ _ _ Hfirst) as (r & Hsent & Hr).
      specialize (IH s1).
      destruct (deliver_all new_URL st arrivals s1) as [s|e].
      * destruct IH as [Hlength Hstatus]. split.
        -- rewrite Hlength, Hsent, length_app. cbn [count_requests].
           destruct (is_Request a); cbn; lia.
        -- intros Hs0. apply Hstatus. rewrite Hsent.
           apply Forall_app. split; [done|].
           destruct (is_Request a); [by apply Forall_singleton|apply Forall_nil_2].
      * destruct IH as (before & req_url & after & s & -> & Hthrown & Hbefore
                        & Hlength).
        exists (a :: before), req_url, after, s.
        split_and!; [done|done| |].
        -- cbn [deliver_all]. unfold mbind, outcome_bind, bind.
           by rewrite Hfirst.
        -- rewrite Hlength, Hsent, length_app. cbn [count_requests].
           destruct (is_Request a); cbn; lia.
    + destruct (deliver_throws _ _ _ _ _ Hfirst) as (req_url & -> & Hthrown).
      exists [], req_url, arrivals, s0. split_and!; [done|done|done|].
      cbn. lia.
Qed.

(** X4. As long as every target parses, every request is answered
    exactly once, with status 200, 400 or 404, and nothing is sent for an
    error or for the timer: the server has then sent as many responses as
    it received requests.  A request whose target does not parse is never
    answered: the listener throws before it writes anything, nothing
    catches the exception, and the requests before it are the only ones
    answered. *)
Theorem one_response_per_request new_URL st arrivals :
  match deliver_all new_URL st arrivals listening with
  | Return s =>
      length (sent s) = count_requests arrivals
      ∧ Forall (fun r => statusCode r = 200 ∨ statusCode r = 400
                         ∨ statusCode r = 404) (sent s)
  | Throw e =>
      ∃ before req_url after s,
        arrivals = before ++ Request req_url :: after
        ∧ new_URL (target_of req_url) = Throw e
        ∧ deliver_all new_URL st before listening = Return s
        ∧ length (sent s) = count_requests before
  end.
Proof.
  pose proof (deliver_all_sent new_URL st arrivals listening) as Hsent.
  destruct (deliver_all new_URL st arrivals listening) as [s|e].
  - destruct Hsent as [Hlength Hstatus]. split; [done|].
    apply Hstatus. constructor.
  - done.
Qed.

(** A request for ["//"] among others: it is not answered, and neither is
    the callback that comes after it. *)
Example unparseable_target_ends_everything :
  deliver_all path_only example_state
    [Request (Some (js "/favicon.ico")); Request (Some (js "//"));
     Request (Some (js "/callback"))] listening
  = Throw (js "Invalid URL").
Proof. reflexivity. Qed.

End CallbackServerMore.


(* ===================================================================== *)
(** * Further properties of the OAuth flow *)
(* ===================================================================== *)

Section FlowMore.

Import OAuth Traces.

(** The flow, case by case. *)
Lemma runOAuthFlow_unfold env domain clientId clientSecret scopes w :
  let w1 := {| disk := disk w; fetched := fetched w;
               opened := opened w ++ [authUrl env domain clientId scopes] |} in
  runOAuthFlow env domain clientId clientSecret scopes w
  = match open env (authUrl env domain clientId scopes) with
    | Throw e => Some (Throw e, w1)
    | Return _ =>
        match callback (startCallbackServer (randomBytes_hex env) (traffic env)) with
        | Pending => None
        | Rejected message => Some (Throw message, w1)
        | Resolved (code, shop) =>
            let request := access_token_request domain clientId clientSecret code in
            let w2 := {| disk := disk w; fetched := fetched w ++ [request];
                         opened := opened w1 |} in
            match fetch env request with
            | Throw e => Some (Throw e, w2)
            | Return response =>
                if ok response then
                  match json response with
                  | Throw e => Some (Throw e, w2)
                  | Return None =>
                      Some (Throw (js "Cannot read properties of null (reading 'access_token')"),
                            w2)
                  | Return (Some data) =>
                      let tokenData :=
                        {| access_token := granted_token data;
                           scope := granted_scope data;
                           obtained_at := Date_toISOString env |} in
                      let saved := saveToken domain tokenData (disk w) in
                      Some (match saved.1 with
                            | Return _ => Return tokenData
                            | Throw e => Throw e
                            end,
                            {| disk := saved.2;
                               fetched := fetched w2; opened := opened w2 |})
                  end
                else
                  Some (Throw (js "Failed to exchange code for token: "
                                 ++ number_to_string (Num (status response))
                                 ++ js " " ++ text response), w2)
            end
        end
    end.
Proof.
  cbn zeta. unfold runOAuthFlow, do_open, authUrl, effectiveScopes.
  destruct (open env _) as [[]|e]; [|done].
  destruct (callback _) as [|[code shop]|message]; cbn [await]; [done| |done].
  unfold exchangeCodeForToken, mbind, io_bind, do_fetch, lift, do_saveToken,
    mret, io_ret.
  destruct (fetch env _) as [response|e]; [|done].
  destruct (ok response); cbn [negb]; [|done].
  destruct (json response) as [[data|]|e]; [|done..].
  cbn [disk fetched opened].
  by destruct (saveToken domain _ (disk w)) as [[[]|e] fs].
Qed.

(** X5. The flow end to end: when the browser opens, the callback
    resolves with a code, the token endpoint answers successfully with a
    JSON body other than [null], and the credential file is absent, is
    not JSON or holds a JSON object, the flow returns the members of the
    body stamped with the current time, having sent one request, carrying
    that code, to the token endpoint of the domain, and having saved the
    record under the domain; for a host-name domain [loadToken] then
    finds it. *)
Theorem runOAuthFlow_success env domain clientId clientSecret scopes w
  code shop response grant :
  let request := access_token_request domain clientId clientSecret code in
  let tokenData := {| access_token := granted_token grant;
                      scope := granted_scope grant;
                      obtained_at := Date_toISOString env |} in
  open env (authUrl env domain clientId scopes) = Return tt →
  callback (startCallbackServer (randomBytes_hex env) (traffic env))
    = Resolved (code, shop) →
  fetch env request = Return response →
  ok response = true →
  json response = Return (Some grant) →
  starts_from_store (disk w) = true →
  ∃ w', runOAuthFlow env domain clientId clientSecret scopes w
          = Some (Return tokenData, w')
        ∧ fetched w' = fetched w ++ [request]
        ∧ opened w' = opened w ++ [authUrl env domain clientId scopes]
        ∧ saveToken domain tokenData (disk w) = (Return tt, disk w')
        ∧ (hostname domain = true →
           loadToken domain (disk w') = Some (Own tokenData)).
Proof.
  intros request tokenData Hopen Hcallback Hfetch Hok Hjson Hstore.
  rewrite runOAuthFlow_unfold. cbn zeta.
  rewrite Hopen, Hcallback. fold request. rewrite Hfetch, Hok, Hjson.
  fold tokenData. rewrite (saveToken_store domain tokenData) by done.
  eexists. split; [reflexivity|]. cbn [fetched opened disk fst snd].
  split_and!; [done..|].
  intros Hhost.
  pose proof (saveToken_loadToken domain tokenData (disk w) Hstore) as Hsaved.
  rewrite (saveToken_store domain tokenData) in Hsaved by done.
  apply Hsaved. left. intros ->. vm_compute in Hhost. discriminate Hhost.
Qed.

Lemma runOAuthFlow_success_witness :
  let env := environment_with [(2000, genuine_callback)] (Return granting_answer) in
  ∃ w', runOAuthFlow env example_domain (js "id") (js "secret") None
          untouched_world = Some (Return example_token, w')
        ∧ loadToken example_domain (disk w') = Some (Own example_token).
Proof.
  intros env.
  destruct (runOAuthFlow_success env example_domain (js "id") (js "secret") None
              untouched_world (js "c0de") example_domain granting_answer
              {| granted_token := Some (js "shpat_1");
                 granted_scope := Some (js "read_products") |}
              eq_refl eq_refl eq_refl eq_refl eq_refl eq_refl)
    as (w' & Hflow & _ & _ & _ & Hloaded).
  exists w'. split; [exact Hflow|]. apply Hloaded. reflexivity.
Defined.

(** The disk after the flow: it is touched by [saveToken] alone. *)
Lemma runOAuthFlow_disk env domain clientId clientSecret scopes w result w' :
  runOAuthFlow env domain clientId clientSecret scopes w = Some (result, w') →
  match result with
  | Throw e =>
      disk w' = disk w
      ∨ ∃ tokenData, saveToken domain tokenData (disk w) = (Throw e, disk w')
  | Return tokenData => saveToken domain tokenData (disk w) = (Return tt, disk w')
  end.
Proof.
  rewrite runOAuthFlow_unfold. cbn zeta.
  destruct (open env _) as [[]|e];
    [|intros [= <- <-]; cbv beta iota; by left].
  destruct (callback _) as [|[code shop]|message];
    [done| |intros [= <- <-]; cbv beta iota; by left].
  destruct (fetch env _) as [response|e];
    [|intros [= <- <-]; cbv beta iota; by left].
  destruct (ok response); [|intros [= <- <-]; cbv beta iota; by left].
  destruct (json response) as [[data|]|e];
    [|intros [<- <-]%(inj Some)%pair_equal_spec; cbv beta iota; by left..].
  destruct (saveToken domain _ (disk w)) as [[[]|e] fs] eqn:Hsaved;
    cbn [fst snd]; intros [= <- <-]; cbn [disk]; [done|].
  right. eauto.
Qed.

Lemma saveToken_throws_file d r fs e fs' :
  saveToken d r fs = (Throw e, fs') → TOKEN_FILE fs' = TOKEN_FILE fs.
Proof.
  unfold saveToken.
  destruct (assign _ d r); [done|]. by intros [= _ <-].
Qed.

(** X6. The flow touches the disk through [saveToken] alone.  If it
    returns a token, [saveToken] returned for that token and left the disk
    the flow ends with, on which the token is stored under the domain
    whenever the credential file was absent, was not JSON or held a JSON
    object and the domain is a host name.  If the flow throws, at
    whatever stage, the credential file is as it was. *)
Theorem runOAuthFlow_persists_on_success_only env domain clientId clientSecret
  scopes w result w' :
  runOAuthFlow env domain clientId clientSecret scopes w = Some (result, w') →
  match result with
  | Throw _ => TOKEN_FILE (disk w') = TOKEN_FILE (disk w)
  | Return tokenData =>
      saveToken domain tokenData (disk w) = (Return tt, disk w')
      ∧ (starts_from_store (disk w) = true → hostname domain = true →
         loadToken domain (disk w') = Some (Own tokenData))
  end.
Proof.
  intros Hflow%runOAuthFlow_disk.
  destruct result as [tokenData|e]; cbv beta iota in Hflow.
  - split; [done|]. intros Hstore Hhost.
    pose proof (saveToken_loadToken domain tokenData (disk w) Hstore) as Hsaved.
    rewrite Hflow in Hsaved. apply Hsaved.
    left. intros ->. vm_compute in Hhost. discriminate Hhost.
  - destruct Hflow as [-> | [tokenData Hsaved]]; [done|].
    by eapply saveToken_throws_file.
Qed.

Lemma runOAuthFlow_persists_on_success_only_witness :
  let env := environment_with [(2000, genuine_callback)] (Return granting_answer) in
  let w := {| disk := null_disk; fetched := []; opened := [] |} in
  ∃ e w', runOAuthFlow env example_domain (js "id") (js "secret") None w
          = Some (Throw e, w')
          ∧ TOKEN_FILE (disk w') = TOKEN_FILE null_disk.
Proof.
  intros env w. eexists _, _. split; [reflexivity|].
  exact (runOAuthFlow_persists_on_success_only env example_domain (js "id")
           (js "secret") None w _ _ eq_refl).
Defined.

(** X7. Whatever happens, the flow opens exactly one URL, the
    authorization URL of the domain, and sends at most one request to the
    token endpoint: none unless the callback resolved, and then the one
    carrying the code of the callback. *)
Theorem runOAuthFlow_effects env domain clientId clientSecret scopes w
  result w' :
  runOAuthFlow env domain clientId clientSecret scopes w = Some (result, w') →
  opened w' = opened w ++ [authUrl env domain clientId scopes]
  ∧ (fetched w' = fetched w
     ∨ ∃ code shop,
         callback (startCallbackServer (randomBytes_hex env) (traffic env))
           = Resolved (code, shop)
         ∧ fetched w'
           = fetched w ++ [access_token_request domain clientId clientSecret code]).
Proof.
  rewrite runOAuthFlow_unfold. cbn zeta.
  destruct (open env _) as [[]|e]; [|intros [= <- <-]; cbn; auto].
  destruct (callback _) as [|[code shop]|message];
    [done| |intros [= <- <-]; cbn; auto].
  destruct (fetch env _) as [response|e];
    [|intros [= <- <-]; cbn; eauto 10].
  destruct (ok response); [|intros [= <- <-]; cbn; eauto 10].
  destruct (json response) as [[data|]|e];
    intros [<- <-]%(inj Some)%pair_equal_spec; cbn [fetched opened];
    eauto 10.
Qed.

Lemma runOAuthFlow_effects_witness :
  let env := environment_with [(2000, forged_callback)] (Return granting_answer) in
  ∃ result w', runOAuthFlow env example_domain (js "id") (js "secret") None
                 untouched_world = Some (result, w')
               ∧ length (opened w') = 1%nat.
Proof.
  intros env. eexists _, _. split; [reflexivity|].
  destruct (runOAuthFlow_effects env example_domain (js "id") (js "secret") None
              untouched_world _ _ eq_refl) as [Hopened _].
  rewrite Hopened. reflexivity.
Defined.

(** X8. The [shop] parameter of the callback is not used: with the same
    code, the flow requests the token from, and saves it under, the domain
    it was started with, whatever shop the callback names. *)
Theorem runOAuthFlow_ignores_shop env other domain clientId clientSecret scopes
  w code shop shop' :
  callback (startCallbackServer (randomBytes_hex env) (traffic env))
    = Resolved (code, shop) →
  callback (startCallbackServer (randomBytes_hex env) other)
    = Resolved (code, shop') →
  runOAuthFlow (with_traffic env other) domain clientId clientSecret scopes w
  = runOAuthFlow env domain clientId clientSecret scopes w.
Proof.
  intros Hcallback Hother. rewrite !runOAuthFlow_unfold. cbn zeta.
  cbn [with_traffic randomBytes_hex traffic open fetch Date_toISOString].
  rewrite Hcallback, Hother. reflexivity.
Qed.

Lemma runOAuthFlow_ignores_shop_witness :
  let env := environment_with [(2000, genuine_callback)] (Return granting_answer) in
  let elsewhere :=
    {| pathname := js "/callback";
       searchParams := [ (js "code", js "c0de"); (js "state", example_state);
                         (js "shop", js "other.myshopify.com") ] |} in
  runOAuthFlow (with_traffic env {| listen_error := None;
                                    arrivals := [(10, elsewhere)] |})
    example_domain (js "id") (js "secret") None untouched_world
  = runOAuthFlow env example_domain (js "id") (js "secret") None untouched_world.
Proof.
  intros env elsewhere.
  apply (runOAuthFlow_ignores_shop env _ example_domain (js "id") (js "secret")
           None untouched_world (js "c0de") example_domain
           (js "other.myshopify.com")); reflexivity.
Defined.

End FlowMore.


(* ===================================================================== *)
(** * Further properties of the token store *)
(* ===================================================================== *)

Section TokenStoreMore.

Import OAuth.

Implicit Types (d : jsstring) (r : TokenData) (fs : filesystem)
  (tokens : TokenStore) (value : parsed)
  (elements : list (option TokenData)).

















End TokenStoreMore.


(* ===================================================================== *)
(** * Properties of the entry point *)
(* ===================================================================== *)

Section EntryPoint.

Import OAuth Index.

Implicit Types (argv : command_line) (penv : process_env)
  (env : environment) (w : world).

Lemma Exited_inj code stderr code' stderr' :
  Exited code stderr = Exited code' stderr' → code = code' ∧ stderr = stderr'.
Proof. intros H. by injection H. Qed.

Lemma Served_inj accessToken domain stderr accessToken' domain' stderr' :
  Served accessToken domain stderr = Served accessToken' domain' stderr' →
  accessToken = accessToken' ∧ domain = domain' ∧ stderr = stderr'.
Proof. intros H. by injection H. Qed.

(** X13. In OAuth mode the server is never started, and the flow is not
    run unless the domain, the client id and the client secret are all
    given: when one is missing or empty, [main] exits with code 1 and
    nothing has been opened, requested or written. *)
Theorem main_oauth_requires_configuration argv penv env w :
  RUN_OAUTH argv = true →
  (∀ accessToken domain stderr,
      main argv penv env w ≠ Served accessToken domain stderr)
  ∧ (given (MYSHOPIFY_DOMAIN argv penv)
       && given (SHOPIFY_CLIENT_ID argv penv)
       && given (SHOPIFY_CLIENT_SECRET argv penv) = false →
     ∃ stderr, main argv penv env w = Exited 1 stderr ∧ stderr ≠ []).
Proof.
  intros Hoauth. unfold main. rewrite Hoauth. split.
  - intros accessToken domain stderr.
    destruct (MYSHOPIFY_DOMAIN argv penv) as [[|? ?]|],
             (SHOPIFY_CLIENT_ID argv penv) as [[|? ?]|],
             (SHOPIFY_CLIENT_SECRET argv penv) as [[|? ?]|]; try done.
    by destruct (runOAuthFlow _ _ _ _ _ _) as [[[] ?]|].
  - destruct (MYSHOPIFY_DOMAIN argv penv) as [[|? ?]|],
             (SHOPIFY_CLIENT_ID argv penv) as [[|? ?]|],
             (SHOPIFY_CLIENT_SECRET argv penv) as [[|? ?]|]; cbn;
      try done; eauto.
Qed.

Lemma main_oauth_requires_configuration_witness :
  ∃ stderr,
    main oauth_without_secret no_environment
      (environment_with [] (Return granting_answer)) untouched_world
    = Exited 1 stderr ∧ stderr ≠ [].
Proof.
  destruct (main_oauth_requires_configuration oauth_without_secret no_environment
              (environment_with [] (Return granting_answer)) untouched_world
              eq_refl) as [_ Hmissing].
  exact (Hmissing eq_refl).
Defined.

(** X14. An access token in the environment takes precedence over the
    credential file: when neither the token nor the domain is given on the
    command line and both are set, non-empty, in the environment, the
    server is started with that token and that domain, and the credential
    file plays no part. *)
Theorem main_explicit_token_wins argv penv env w accessToken domain :
  RUN_OAUTH argv = false →
  argv_accessToken argv = None →
  argv_domain argv = None →
  env_SHOPIFY_ACCESS_TOKEN penv = Some accessToken →
  accessToken ≠ [] →
  env_MYSHOPIFY_DOMAIN penv = Some domain →
  domain ≠ [] →
  main argv penv env w = Served accessToken domain [].
Proof.
  intros Hmode Hno_token Hno_domain Htoken Hnonempty Hdomain Hd.
  unfold main, MYSHOPIFY_DOMAIN.
  rewrite Hmode, Hno_token, Hno_domain, Htoken, Hdomain.
  by destruct accessToken, domain.
Qed.

Lemma main_explicit_token_wins_witness :
  let argv := {| argv_domain := None; argv_clientId := None;
                 argv_clientSecret := None; argv_scopes := None;
                 argv_accessToken := None; argv_oauth := false |} in
  let penv := {| env_MYSHOPIFY_DOMAIN := Some example_domain;
                 env_SHOPIFY_CLIENT_ID := None;
                 env_SHOPIFY_CLIENT_SECRET := None; env_SHOPIFY_SCOPES := None;
                 env_SHOPIFY_ACCESS_TOKEN := Some (js "shpat_env") |} in
  let w := {| disk := disk_with {[ example_domain := example_token ]};
              fetched := []; opened := [] |} in
  main argv penv (environment_with [] (Return granting_answer)) w
  = Served (js "shpat_env") example_domain [].
Proof.
  intros argv penv w.
  apply (main_explicit_token_wins argv penv _ w (js "shpat_env")
           example_domain); (reflexivity || discriminate).
Defined.

(** X15. Authorizing and then starting: when [main] in OAuth mode ends
    with a token record for a host-name domain, on a disk whose
    credential file was absent, was not JSON or held a JSON object, and
    the record has a non-empty access token, a later run of [main] for
    the same domain without an access token starts the server with the
    access token that was granted. *)
Theorem main_serves_after_authorization argv penv env w argv' penv' env'
  tokenData w' domain accessToken :
  RUN_OAUTH argv = true →
  MYSHOPIFY_DOMAIN argv penv = Some domain →
  hostname domain = true →
  starts_from_store (disk w) = true →
  main argv penv env w = Authorized tokenData w' →
  access_token tokenData = Some accessToken →
  accessToken ≠ [] →
  RUN_OAUTH argv' = false →
  MYSHOPIFY_DOMAIN argv' penv' = Some domain →
  given (or_else (argv_accessToken argv') (env_SHOPIFY_ACCESS_TOKEN penv'))
    = false →
  ∃ stderr, main argv' penv' env' w' = Served accessToken domain stderr.
Proof.
  intros Hmode Hdomain Hhost Hstore Hmain Htoken Hnonempty Hmode' Hdomain' Hnone.
  assert (saveToken domain tokenData (disk w) = (Return tt, disk w')) as Hdisk.
  { unfold main in Hmain. rewrite Hmode, Hdomain in Hmain.
    destruct domain as [|c domain]; [done|].
    destruct (SHOPIFY_CLIENT_ID argv penv) as [[|? ?]|]; try done.
    destruct (SHOPIFY_CLIENT_SECRET argv penv) as [[|? ?]|]; try done.
    destruct (runOAuthFlow _ _ _ _ _ _) as [[[token|e] w1]|] eqn:Hflow;
      try done.
    injection Hmain as <- <-.
    exact (runOAuthFlow_disk _ _ _ _ _ _ _ _ Hflow). }
  assert (loadToken domain (disk w') = Some (Own tokenData)) as Hloaded.
  { pose proof (saveToken_loadToken domain tokenData (disk w) Hstore) as Hsaved.
    rewrite Hdisk in Hsaved. apply Hsaved. left.
    intros ->. vm_compute in Hhost. discriminate Hhost. }
  unfold main. rewrite Hmode', Hdomain'.
  destruct (or_else (argv_accessToken argv') (env_SHOPIFY_ACCESS_TOKEN penv'))
    as [[|? ?]|]; try done;
    destruct domain as [|c domain]; try done;
    rewrite Hloaded, Htoken; destruct accessToken; try done; eauto.
Qed.

Lemma main_serves_after_authorization_witness :
  let oauth := {| argv_domain := Some example_domain; argv_clientId := Some (js "id");
                  argv_clientSecret := Some (js "secret"); argv_scopes := None;
                  argv_accessToken := None; argv_oauth := true |} in
  let env := environment_with [(2000, genuine_callback)] (Return granting_answer) in
  ∃ w', main oauth no_environment env untouched_world = Authorized example_token w'
        ∧ ∃ stderr, main (domain_only example_domain) no_environment env w'
                    = Served (js "shpat_1") example_domain stderr.
Proof.
  intros oauth env. eexists. split; [reflexivity|].
  apply (main_serves_after_authorization oauth no_environment env untouched_world
           (domain_only example_domain) no_environment env example_token _
           example_domain (js "shpat_1")); (reflexivity || discriminate).
Defined.

(** X16. The server is only ever started in normal mode with a non-empty
    access token and the configured non-empty domain, and the token is
    either the one given explicitly or the [access_token] of the record
    stored for that domain in the credential file. *)
Theorem main_serves_with_token_and_domain argv penv env w accessToken domain
  stderr :
  main argv penv env w = Served accessToken domain stderr →
  RUN_OAUTH argv = false
  ∧ accessToken ≠ [] ∧ domain ≠ []
  ∧ MYSHOPIFY_DOMAIN argv penv = Some domain
  ∧ (or_else (argv_accessToken argv) (env_SHOPIFY_ACCESS_TOKEN penv)
       = Some accessToken
     ∨ ∃ saved, loadToken domain (disk w) = Some (Own saved)
                ∧ access_token saved = Some accessToken).
Proof.
  unfold main.
  destruct (RUN_OAUTH argv).
  { destruct (MYSHOPIFY_DOMAIN argv penv) as [[|? ?]|],
             (SHOPIFY_CLIENT_ID argv penv) as [[|? ?]|],
             (SHOPIFY_CLIENT_SECRET argv penv) as [[|? ?]|]; try done.
    by destruct (runOAuthFlow _ _ _ _ _ _) as [[[] ?]|]. }
  main_cases argv penv w; try done;
    intros (<- & <- & <-)%Served_inj; split_and!; try done; eauto.
Qed.

Lemma main_serves_with_token_and_domain_witness :
  let w := {| disk := disk_with {[ example_domain := example_token ]};
              fetched := []; opened := [] |} in
  loadToken example_domain (disk w) = Some (Own example_token)
  ∧ ∃ stderr, main (domain_only example_domain) no_environment
                (environment_with [] (Return granting_answer)) w
              = Served (js "shpat_1") example_domain stderr.
Proof.
  intros w.
  assert (main (domain_only example_domain) no_environment
            (environment_with [] (Return granting_answer)) w
          = Served (js "shpat_1") example_domain
              [js "Using saved token for shop.myshopify.com (obtained: 2024-01-01T00:00:00.000Z)"])
    as Hserved by reflexivity.
  destruct (main_serves_with_token_and_domain _ _ _ _ _ _ _ Hserved)
    as (_ & _ & _ & _ & [Hexplicit | (saved & Hloaded & Haccess)]).
  - discriminate Hexplicit.
  - split; [reflexivity|]. eexists. exact Hserved.
Defined.

(** X17. [main] never exits quietly or with success: whenever it ends by
    [process.exit], the code is 1 and at least one line has been written
    to the error stream. *)
Theorem main_exits_with_diagnostics argv penv env w code stderr :
  main argv penv env w = Exited code stderr → code = 1 ∧ stderr ≠ [].
Proof.
  assert (∀ (lines : list jsstring) line rest, lines ++ line :: rest ≠ [])
    as Hlines by (by intros [|? ?]).
  unfold main.
  destruct (RUN_OAUTH argv).
  { destruct (MYSHOPIFY_DOMAIN argv penv) as [[|? ?]|],
             (SHOPIFY_CLIENT_ID argv penv) as [[|? ?]|],
             (SHOPIFY_CLIENT_SECRET argv penv) as [[|? ?]|];
      try (by intros [<- <-]%Exited_inj).
    by destruct (runOAuthFlow _ _ _ _ _ _) as [[[] ?]|]. }
  main_cases argv penv w; try done;
    intros [<- <-]%Exited_inj; (split; [done|apply Hlines]).
Qed.

Lemma main_exits_with_diagnostics_witness :
  ∃ stderr, main (domain_only example_domain) no_environment
              (environment_with [] (Return granting_answer)) untouched_world
            = Exited 1 stderr ∧ stderr ≠ [].
Proof.
  eexists. split; [reflexivity|].
  exact (proj2 (main_exits_with_diagnostics (domain_only example_domain)
                  no_environment (environment_with [] (Return granting_answer))
                  untouched_world 1 _ eq_refl)).
Defined.

End EntryPoint.


(* ===================================================================== *)
(** * Further properties of the export tool *)
(* ===================================================================== *)

Section ExportToolMore.

Import StartBulkExport.

Implicit Types (shopifyClient : client) (input : StartBulkExportInput).

(** The call, case by case. *)
Lemma execute_unfold shopifyClient input :
  execute shopifyClient input
  = match bulkQuery input with
    | Throw e => Throw (js "Failed to start bulk export: " ++ e)
    | Return q =>
        match shopifyClient q with
        | Throw e => Throw (js "Failed to start bulk export: " ++ e)
        | Return answer =>
            match userErrors answer, bulkOperation answer with
            | _ :: _, _ =>
                Throw (js "Failed to start bulk export: "
                         ++ js "Failed to start bulk export: "
                         ++ join (js ", ") (message <$> userErrors answer))
            | [], None =>
                Throw (js "Failed to start bulk export: "
                         ++ js "Bulk operation was not created")
            | [], Some operation =>
                Return {| success := true;
                          operationId := id operation;
                          started_status := status operation;
                          started_createdAt := createdAt operation;
                          exportType := type input;
                          started_message := js "Bulk export started. Use get-bulk-operation-status to check progress, then get-bulk-operation-results when complete." |}
            end
        end
    end.
Proof.
  unfold execute, mbind, outcome_bind, bind.
  destruct (bulkQuery input) as [q|e]; [|done].
  destruct (shopifyClient q) as [answer|e]; [|done].
  destruct (userErrors answer) as [|u errors]; [|done].
  by destruct (bulkOperation answer).
Qed.

(** X18. A custom export without a query (absent or empty) is refused
    before anything is sent: the call throws the same validation error
    whatever the client would have answered. *)
Theorem custom_export_requires_query shopifyClient input :
  type input = custom →
  Index.given (customQuery input) = false →
  execute shopifyClient input
  = Throw (js "Failed to start bulk export: "
             ++ js "customQuery is required when type is 'custom'").
Proof.
  intros Htype Hquery. rewrite execute_unfold. unfold bulkQuery.
  rewrite Htype. by destruct (customQuery input) as [[|? ?]|].
Qed.

Lemma custom_export_requires_query_witness :
  execute (fun _ => Return already_running)
    {| type := custom; query := Some (js "status:active"); dateFrom := None;
       dateTo := None; customQuery := Some []; includeMetafields := true |}
  = Throw (js "Failed to start bulk export: customQuery is required when type is 'custom'").
Proof.
  apply (custom_export_requires_query (fun _ => Return already_running));
    reflexivity.
Defined.

(** X19. A custom export submits the caller's query verbatim, and every
    export consults the client on the one query it built and on nothing
    else: two clients that answer that query alike give the same result. *)
Theorem execute_submits_built_query shopifyClient otherClient input q :
  bulkQuery input = Return q →
  shopifyClient q = otherClient q →
  execute shopifyClient input = execute otherClient input
  ∧ (type input = custom → customQuery input = Some q).
Proof.
  intros Hquery Hsame. split.
  - rewrite !execute_unfold, Hquery, Hsame. done.
  - intros Htype. unfold bulkQuery in Hquery. rewrite Htype in Hquery.
    destruct (customQuery input) as [[|? ?]|]; congruence.
Qed.

Lemma execute_submits_built_query_witness :
  let input := {| type := custom; query := None; dateFrom := None;
                  dateTo := None; customQuery := Some (js "{ shop { name } }");
                  includeMetafields := false |} in
  let picky : client := fun q =>
    if bool_decide (q = js "{ shop { name } }") then Return already_running
    else Throw (js "unexpected query") in
  execute picky input = execute (fun _ => Return already_running) input.
Proof.
  intros input picky.
  apply (execute_submits_built_query picky (fun _ => Return already_running)
           input (js "{ shop { name } }")); reflexivity.
Defined.

(** X20. The call returns a result exactly when the query could be
    built, the client answered, the answer holds no user error and it
    holds an operation; the result then carries that operation's id,
    status and creation time and the requested export type.  An answer
    with neither user errors nor an operation makes the call throw. *)
Theorem execute_success_characterised shopifyClient input result :
  execute shopifyClient input = Return result
  ↔ ∃ q answer operation,
      bulkQuery input = Return q
      ∧ shopifyClient q = Return answer
      ∧ userErrors answer = []
      ∧ bulkOperation answer = Some operation
      ∧ result = {| success := true;
                    operationId := id operation;
                    started_status := status operation;
                    started_createdAt := createdAt operation;
                    exportType := type input;
                    started_message := js "Bulk export started. Use get-bulk-operation-status to check progress, then get-bulk-operation-results when complete." |}.
Proof.
  rewrite execute_unfold. split.
  - destruct (bulkQuery input) as [q|e]; [|done].
    destruct (shopifyClient q) as [answer|e] eqn:Hanswer; [|done].
    destruct (userErrors answer) as [|u errors] eqn:Herrors; [|done].
    destruct (bulkOperation answer) as [operation|] eqn:Hoperation; [|done].
    intros Hresult. exists q, answer, operation.
    split_and!; [done..|]. congruence.
  - intros (q & answer & operation & -> & -> & -> & -> & ->). done.
Qed.

(** X21. Every failure of the call, whatever its cause, is reported with
    the message prefix of the tool. *)
Theorem execute_errors_prefixed shopifyClient input thrown :
  execute shopifyClient input = Throw thrown →
  ∃ cause, thrown = js "Failed to start bulk export: " ++ cause.
Proof.
  rewrite execute_unfold.
  destruct (bulkQuery input) as [q|e]; [|intros <-%Throw_inj; by eexists].
  destruct (shopifyClient q) as [answer|e]; [|intros <-%Throw_inj; by eexists].
  destruct (userErrors answer) as [|u errors];
    [|intros <-%Throw_inj; by eexists].
  destruct (bulkOperation answer); [done|intros <-%Throw_inj; by eexists].
Qed.

Lemma execute_errors_prefixed_witness :
  ∃ cause,
    execute (fun _ => Throw (js "getaddrinfo ENOTFOUND")) products_export
    = Throw (js "Failed to start bulk export: " ++ cause).
Proof.
  destruct (execute_errors_prefixed (fun _ => Throw (js "getaddrinfo ENOTFOUND"))
              products_export
              (js "Failed to start bulk export: getaddrinfo ENOTFOUND") eq_refl)
    as [cause Hcause].
  exists cause. rewrite <- Hcause. reflexivity.
Defined.

(** X22. Each export type reads only its own options: the inventory
    query is fixed; customers read the filter; orders read the filter and
    the two dates; products read the filter and the metafields flag; a
    custom export reads the custom query.  Every other option is ignored,
    and an empty filter or date counts as none. *)
Theorem bulkQuery_reads_own_options input input' :
  type input = type input' →
  match type input with
  | inventory => True
  | customers => Index.or_else (query input) None = Index.or_else (query input') None
  | orders =>
      Index.or_else (query input) None = Index.or_else (query input') None
      ∧ Index.or_else (dateFrom input) None = Index.or_else (dateFrom input') None
      ∧ Index.or_else (dateTo input) None = Index.or_else (dateTo input') None
  | products =>
      Index.or_else (query input) None = Index.or_else (query input') None
      ∧ includeMetafields input = includeMetafields input'
  | custom =>
      Index.or_else (customQuery input) None
      = Index.or_else (customQuery input') None
  end →
  bulkQuery input = bulkQuery input'.
Proof.
  intros Htype. unfold bulkQuery. rewrite <- Htype.
  destruct (type input).
  - intros [Hquery ->]. unfold buildProductsQuery.
    by destruct (query input) as [[|? ?]|], (query input') as [[|? ?]|];
      (discriminate Hquery || injection Hquery as -> -> || idtac).
  - intros (Hquery & Hfrom & Hto). unfold buildOrdersQuery.
    destruct (dateFrom input) as [[|? ?]|], (dateFrom input') as [[|? ?]|];
      (discriminate Hfrom || injection Hfrom as -> -> || idtac);
      destruct (dateTo input) as [[|? ?]|], (dateTo input') as [[|? ?]|];
      (discriminate Hto || injection Hto as -> -> || idtac);
      by destruct (query input) as [[|? ?]|], (query input') as [[|? ?]|];
        (discriminate Hquery || injection Hquery as -> -> || idtac).
  - intros Hquery. unfold buildCustomersQuery.
    by destruct (query input) as [[|? ?]|], (query input') as [[|? ?]|];
      (discriminate Hquery || injection Hquery as -> -> || idtac).
  - done.
  - intros Hquery.
    by destruct (customQuery input) as [[|? ?]|],
                (customQuery input') as [[|? ?]|];
      (discriminate Hquery || injection Hquery as -> -> || idtac).
Qed.

Lemma bulkQuery_reads_own_options_witness :
  bulkQuery {| type := inventory; query := Some (js "sku:A*");
               dateFrom := Some (js "2024-01-01"); dateTo := None;
               customQuery := None; includeMetafields := true |}
  = bulkQuery {| type := inventory; query := None; dateFrom := None;
                 dateTo := None; customQuery := None;
                 includeMetafields := false |}.
Proof.
  apply (bulkQuery_reads_own_options
           {| type := inventory; query := Some (js "sku:A*");
              dateFrom := Some (js "2024-01-01"); dateTo := None;
              customQuery := None; includeMetafields := true |}
           {| type := inventory; query := None; dateFrom := None;
              dateTo := None; customQuery := None;
              includeMetafields := false |}); [reflexivity|exact I].
Defined.

End ExportToolMore.


(* ===================================================================== *)
(** * Further properties of the status tool *)
(* ===================================================================== *)

Section StatusToolMore.

Import BulkOperation GetBulkOperationStatus.

Implicit Types (shopifyClient : client) (operationId : option jsstring)
  (data : BulkOperation) (operation : found_operation).

Lemma Found_inj operation operation' :
  Found operation = Found operation' → operation = operation'.
Proof. congruence. Qed.

(** A snapshot is only returned for a node the client found. *)
Lemma execute_found shopifyClient operationId operation :
  execute shopifyClient operationId = Return (Found operation) →
  ∃ data, find shopifyClient operationId = Return (Some data)
    ∧ found_status operation = status data
    ∧ found_objectCount operation = parseInt (objectCount data)
    ∧ found_fileSize operation = fileSizeFormatted (fileSize data)
    ∧ fileSizeBytes operation
      = match fileSize data with
        | Some ((_ :: _) as fileSize) => Some (parseInt fileSize)
        | _ => None
        end
    ∧ isComplete operation = bool_decide (status data = js "COMPLETED")
    ∧ isFailed operation = bool_decide (status data = js "FAILED")
    ∧ isRunning operation
      = bool_decide (status data = js "RUNNING")
        || bool_decide (status data = js "CREATED").
Proof.
  unfold execute, mbind, outcome_bind, bind.
  destruct (find shopifyClient operationId) as [[data|]|e]; [|done..].
  cbv beta iota zeta delta [catch].
  intros <-%Return_inj%Found_inj. exists data. by split_and!.
Qed.

(** X23. The status call fails only when the client does: it throws
    exactly when the one lookup it sends throws, with the client's
    message behind the prefix of the tool; a node that does not exist is
    reported by a returned value, and a node that exists by a snapshot. *)
Theorem status_fails_only_with_client shopifyClient operationId :
  (∀ thrown,
     execute shopifyClient operationId = Throw thrown
     ↔ ∃ e, find shopifyClient operationId = Throw e
         ∧ thrown = js "Failed to check bulk operation status: " ++ e)
  ∧ ((∃ message, execute shopifyClient operationId = Return (NotFound message))
     ↔ find shopifyClient operationId = Return None)
  ∧ ((∃ operation, execute shopifyClient operationId = Return (Found operation))
     ↔ ∃ data, find shopifyClient operationId = Return (Some data)).
Proof.
  unfold execute, mbind, outcome_bind, bind.
  destruct (find shopifyClient operationId) as [[data|]|e];
    cbv beta iota zeta delta [catch]; split_and!.
  - intros thrown. split; [done|]. by intros (e & ? & _).
  - split; [by intros [message ?]|done].
  - split; [by exists data|by eexists].
  - intros thrown. split; [done|]. by intros (e & ? & _).
  - split; [done|]. by eexists.
  - split; [by intros [operation ?]|by intros [data ?]].
  - intros thrown. split.
    + intros <-%Throw_inj. by exists e.
    + intros (e' & He & ->). congruence.
  - split; [by intros [message ?]|done].
  - split; [by intros [operation ?]|by intros [data ?]].
Qed.

(** X24. In a snapshot at most one of [isComplete], [isFailed] and
    [isRunning] holds, and each follows the reported status:
    [isComplete] for COMPLETED, [isFailed] for FAILED, [isRunning] for
    RUNNING and for CREATED; for every other status, CANCELED among them,
    none holds. *)
Theorem status_flags_exclusive shopifyClient operationId operation :
  execute shopifyClient operationId = Return (Found operation) →
  (isComplete operation = true ↔ found_status operation = js "COMPLETED")
  ∧ (isFailed operation = true ↔ found_status operation = js "FAILED")
  ∧ (isRunning operation = true
     ↔ found_status operation = js "RUNNING"
       ∨ found_status operation = js "CREATED")
  ∧ isComplete operation && isFailed operation = false
  ∧ isComplete operation && isRunning operation = false
  ∧ isFailed operation && isRunning operation = false.
Proof.
  intros (data & _ & -> & _ & _ & _ & -> & -> & ->)%execute_found.
  split_and!.
  - apply bool_decide_eq_true.
  - apply bool_decide_eq_true.
  - rewrite orb_true_iff, !bool_decide_eq_true. done.
  - repeat case_bool_decide; try done.
    exfalso. cut (js "COMPLETED" = js "FAILED"); [js_discriminate|congruence].
  - repeat case_bool_decide; try done; exfalso.
    + cut (js "COMPLETED" = js "RUNNING"); [js_discriminate|congruence].
    + cut (js "COMPLETED" = js "RUNNING"); [js_discriminate|congruence].
    + cut (js "COMPLETED" = js "CREATED"); [js_discriminate|congruence].
  - repeat case_bool_decide; try done; exfalso.
    + cut (js "FAILED" = js "RUNNING"); [js_discriminate|congruence].
    + cut (js "FAILED" = js "RUNNING"); [js_discriminate|congruence].
    + cut (js "FAILED" = js "CREATED"); [js_discriminate|congruence].
Qed.

Lemma status_flags_exclusive_witness :
  ∃ operation,
    execute (fun _ => Return (Some (GetBulkOperationResults.completed_operation 3)))
      None = Return (Found operation)
    ∧ (isComplete operation = true ↔ found_status operation = js "COMPLETED")
    ∧ isComplete operation && isRunning operation = false.
Proof.
  eexists. split; [reflexivity|].
  destruct (status_flags_exclusive
              (fun _ => Return (Some (GetBulkOperationResults.completed_operation 3)))
              None _ eq_refl) as (Hcomplete & _ & _ & _ & Hrunning & _).
  split; [exact Hcomplete|exact Hrunning].
Defined.

(** X25. The numbers of a snapshot are the platform's decimal strings
    parsed: when it reports [n] objects and a file of [b] bytes, both
    below 2^53 (where the parsed number is exact), the snapshot holds the
    count [n], the size [b] and the size formatted by unit; and the
    formatted size is absent exactly when the size in bytes is. *)
Theorem status_numbers_parsed shopifyClient operationId operation :
  execute shopifyClient operationId = Return (Found operation) →
  ∃ data, find shopifyClient operationId = Return (Some data)
    ∧ (found_fileSize operation = None ↔ fileSizeBytes operation = None)
    ∧ (∀ n, objectCount data = digits_of_N n → Z.of_N n < 2 ^ 53 →
         found_objectCount operation = Num (Z.of_N n))
    ∧ (∀ b, fileSize data = Some (digits_of_N b) → Z.of_N b < 2 ^ 53 →
         fileSizeBytes operation = Some (Num (Z.of_N b))
         ∧ found_fileSize operation = Some (implemented_fileSize (Z.of_N b))).
Proof.
  intros (data & Hfind & _ & -> & -> & -> & _)%execute_found.
  exists data. split_and!.
  - done.
  - unfold fileSizeFormatted. by destruct (fileSize data) as [[|? ?]|].
  - intros n -> _. apply parseInt_digits_of_N.
  - intros b -> _. unfold fileSizeFormatted.
    pose proof (digits_of_N_nonempty b) as Hnonempty.
    destruct (digits_of_N b) as [|c digits] eqn:Hdigits; [done|].
    rewrite <- Hdigits, parseInt_digits_of_N, format_bytes_implemented. done.
Qed.

Lemma status_numbers_parsed_witness :
  ∃ operation,
    execute (fun _ => Return (Some (GetBulkOperationResults.completed_operation 3)))
      None = Return (Found operation)
    ∧ found_objectCount operation = Num 3
    ∧ fileSizeBytes operation = Some (Num 2048)
    ∧ found_fileSize operation = Some (js "2.00 KB").
Proof.
  eexists. split; [reflexivity|].
  destruct (status_numbers_parsed
              (fun _ => Return (Some (GetBulkOperationResults.completed_operation 3)))
              None _ eq_refl) as (data & Hfind & _ & Hcount & Hsize).
  apply Return_inj in Hfind. injection Hfind as <-.
  destruct (Hsize 2048%N eq_refl ltac:(done)) as [Hbytes Hformatted].
  split_and!; [exact (Hcount 3%N eq_refl ltac:(done))|exact Hbytes
              |exact Hformatted].
Defined.

(** X26. The status tool and the results tool format a file size alike,
    except for a size of zero and a size that is no number: the status
    tool, which tests the string, shows them as "0 bytes" and
    "NaN bytes"; the results tool, which tests the parsed number, shows
    nothing. *)
Theorem formatters_agree_but_on_zero (size : option jsstring) :
  let bytes :=
    match size with
    | Some ((_ :: _) as size) => Some (parseInt size)
    | _ => None
    end in
  match bytes with
  | None =>
      fileSizeFormatted size = None
      ∧ GetBulkOperationResults.fileSizeFormatted bytes = None
  | Some NaN =>
      fileSizeFormatted size = Some (js "NaN bytes")
      ∧ GetBulkOperationResults.fileSizeFormatted bytes = None
  | Some (Num b) =>
      if b =? 0 then
        fileSizeFormatted size = Some (js "0 bytes")
        ∧ GetBulkOperationResults.fileSizeFormatted bytes = None
      else
        GetBulkOperationResults.fileSizeFormatted bytes = fileSizeFormatted size
  end.
Proof.
  destruct size as [[|c size]|]; cbv zeta; [done| |done].
  unfold fileSizeFormatted, GetBulkOperationResults.fileSizeFormatted.
  destruct (parseInt (c :: size)) as [|b]; [done|].
  destruct (Z.eqb_spec b 0) as [->|Hb]; [done|].
  unfold format_bytes, gt.
  by destruct (1024 * 1024 <? b), (1024 <? b).
Qed.

End StatusToolMore.


(* ===================================================================== *)
(** * Further properties of the results tool *)
(* ===================================================================== *)

Section ResultsMore.

Import BulkOperation GetBulkOperationResults.

Context {value : Type}.

Implicit Types (env : environment value) (input : GetBulkOperationResultsInput)
  (operationData : BulkOperation) (response : download).

(** The objects of a downloaded file, for a limit on the lines read. *)
Lemma execute_completed env input operationData c u :
  find (shopifyClient env) (operationId input) = Return (Some operationData) →
  status operationData = js "COMPLETED" →
  url operationData = Some (c :: u) →
  let totalObjects := parseInt (objectCount operationData) in
  let size :=
    match fileSize operationData with
    | Some ((_ :: _) as fileSize) => Some (parseInt fileSize)
    | _ => None
    end in
  let lines response := split 10 (trim (text response)) in
  let objects response (passes : nat) :=
    omap (JSON_parse env) (take passes (lines response)) in
  let sampled response :=
    objects response
      (iterations (Math_min (sampleSize input)
                     (inject_Z (Z.of_nat (length (lines response)))))) in
  let capped response :=
    objects response
      (Z.to_nat (Z.min MAX_FULL_OBJECTS (Z.of_nat (length (lines response))))) in
  let failed response :=
    Throw (js "Failed to get bulk operation results: "
             ++ js "Failed to download results: "
             ++ number_to_string (Num (http_status response))
             ++ js " " ++ statusText response) in
  execute env input
  = match expiresAt env operationData with
    | Throw e => Throw (js "Failed to get bulk operation results: " ++ e)
    | Return expires =>
        match format input with
        | summary =>
            Return (Summary (id operationData)
              {| summary_totalObjects := totalObjects;
                 summary_fileSize := fileSizeFormatted size;
                 summary_fileSizeBytes := size;
                 summary_downloadUrl := c :: u;
                 summary_completedAt := completedAt operationData;
                 summary_expiresAt := expires |})
        | sample =>
            match fetch env (c :: u) with
            | Throw e => Throw (js "Failed to get bulk operation results: " ++ e)
            | Return response =>
                if ok response then
                  Return (Sample (id operationData)
                    {| sample_sampleSize := Z.of_nat (length (sampled response));
                       sample_totalObjects := totalObjects;
                       sample_objects := sampled response;
                       sample_downloadUrl := c :: u;
                       sample_expiresAt := expires |})
                else failed response
            end
        | full =>
            match fetch env (c :: u) with
            | Throw e => Throw (js "Failed to get bulk operation results: " ++ e)
            | Return response =>
                if ok response then
                  Return (Full (id operationData)
                    {| full_objectCount := Z.of_nat (length (capped response));
                       full_totalObjects := totalObjects;
                       truncated := gt totalObjects (Num MAX_FULL_OBJECTS);
                       data := capped response;
                       full_downloadUrl := c :: u;
                       full_expiresAt := expires;
                       note :=
                         if gt totalObjects (Num MAX_FULL_OBJECTS)
                         then Some (js "Results truncated to "
                                      ++ number_to_string (Num MAX_FULL_OBJECTS)
                                      ++ js " objects. Download the full JSONL file for complete data.")
                         else None |})
                else failed response
            end
        end
    end.
Proof.
  intros Hfind Hstatus Hurl totalObjects size lines objects sampled capped
    failed.
  unfold execute, mbind, outcome_bind, bind.
  rewrite Hfind, Hstatus, Hurl.
  rewrite bool_decide_eq_false_2 by (intros Hne; by apply Hne).
  destruct (expiresAt env operationData) as [expires|e]; [|done].
  destruct (format input); [done| |].
  - destruct (fetch env (c :: u)) as [response|e]; [|done].
    destruct (ok response); [|done]. cbn [negb catch].
    rewrite parse_loop_omap. done.
  - destruct (fetch env (c :: u)) as [response|e]; [|done].
    destruct (ok response); [|done]. cbn [negb catch].
    rewrite iterations_inject_Z, parse_loop_omap. done.
Qed.

Lemma Math_min_le_l (a b : Q) : (Math_min a b <= a)%Q.
Proof.
  unfold Math_min. destruct (Qle_bool a b) eqn:Hle; [apply Qle_refl|].
  apply Qlt_le_weak, Qnot_le_lt. intros Hab%Qle_bool_iff. congruence.
Qed.

Lemma Math_min_le_r (a b : Q) : (Math_min a b <= b)%Q.
Proof.
  unfold Math_min. destruct (Qle_bool a b) eqn:Hle; [|apply Qle_refl].
  by apply Qle_bool_iff.
Qed.

Lemma iterations_mono (a b : Q) : (a <= b)%Q → (iterations a ≤ iterations b)%nat.
Proof.
  intros Hle%Qceiling_resp_le. unfold iterations. lia.
Qed.

Lemma length_omap_le {A B} (f : A → option B) (l : list A) :
  (length (omap f l) ≤ length l)%nat.
Proof.
  induction l as [|a l IH]; [done|]. cbn. destruct (f a); cbn; lia.
Qed.

Lemma omap_take_prefix {A B} (f : A → option B) (l : list A) (n m : nat) :
  (n ≤ m)%nat → omap f (take n l) `prefix_of` omap f (take m l).
Proof.
  intros Hle. exists (omap f (drop n (take m l))).
  rewrite <- omap_app. replace (take n l) with (take n (take m l)).
  - by rewrite take_drop.
  - rewrite take_take. f_equal. lia.
Qed.

Lemma Sample_inj (id id' : jsstring) (s s' : @sample_data value) :
  Sample id s = Sample id' s' → id = id' ∧ s = s'.
Proof. split; congruence. Qed.

(** X27. The summary format never downloads: its outcome is the same
    whatever [fetch] and [JSON.parse] would do; it depends on the client
    and on the date arithmetic alone. *)
Theorem summary_never_downloads env env' input :
  format input = summary →
  shopifyClient env = shopifyClient env' →
  seven_days_after env = seven_days_after env' →
  execute env input = execute env' input.
Proof.
  intros Hformat Hclient Hdate.
  unfold execute, expiresAt, mbind, outcome_bind, bind.
  rewrite <- Hclient, <- Hdate, Hformat.
  destruct (find (shopifyClient env) (operationId input))
    as [[operationData|]|e]; [|done..].
  case_bool_decide; [done|].
  destruct (url operationData) as [[|c u]|]; [done| |done].
  destruct (completedAt operationData) as [[|d completed]|]; [done| |done].
  unfold fmap, outcome_fmap.
  by destruct (seven_days_after env (d :: completed)).
Qed.

(** X28. Once the file of a completed operation has been fetched, the
    response status alone decides between value and error: a response
    that is not [ok] makes the call throw with the status code and the
    status text, and an [ok] response makes it return, whatever the body
    holds and whatever [JSON.parse] makes of its lines. *)
Theorem download_decides_outcome env input operationData u expires response :
  format input ≠ summary →
  find (shopifyClient env) (operationId input) = Return (Some operationData) →
  status operationData = js "COMPLETED" →
  url operationData = Some u → u ≠ [] →
  expiresAt env operationData = Return expires →
  fetch env u = Return response →
  if ok response then ∃ result, execute env input = Return result
  else execute env input
       = Throw (js "Failed to get bulk operation results: "
                  ++ js "Failed to download results: "
                  ++ number_to_string (Num (http_status response))
                  ++ js " " ++ statusText response).
Proof.
  intros Hformat Hfind Hstatus Hurl Hu Hexpires Hfetch.
  destruct u as [|c u]; [done|].
  rewrite (execute_completed env input operationData c u) by done.
  rewrite Hexpires. cbv zeta.
  destruct (format input); [done|..]; rewrite Hfetch;
    destruct (ok response); by eauto.
Qed.

(** X29. Whatever the file holds, a [full] result has at most 1000
    objects and a [sample] result at most [sampleSize] rounded up to an
    integer (a size of 2.5 allows three; a negative size allows none);
    the reported count is the number of objects returned, lines that do
    not parse being left out; and the truncation note is present exactly
    when [truncated] is set. *)
Theorem results_bounded env input result :
  execute env input = Return result →
  match result with
  | Sample _ s =>
      format input = sample
      ∧ (Z.of_nat (length (sample_objects s))
         ≤ Z.max 0 (Qceiling (sampleSize input)))
      ∧ sample_sampleSize s = Z.of_nat (length (sample_objects s))
  | Full _ f =>
      format input = full
      ∧ (length (data f) ≤ 1000)%nat
      ∧ full_objectCount f = Z.of_nat (length (data f))
      ∧ (is_Some (note f) ↔ truncated f = true)
  | _ => True
  end.
Proof.
  destruct (find (shopifyClient env) (operationId input))
    as [[operationData|]|e] eqn:Hfind;
    [| |].
  - destruct (decide (status operationData = js "COMPLETED")) as [Hstatus|Hstatus].
    + destruct (url operationData) as [[|c u]|] eqn:Hurl.
      * unfold execute, mbind, outcome_bind, bind.
        rewrite Hfind, Hstatus, Hurl.
        rewrite bool_decide_eq_false_2 by (intros Hne; by apply Hne).
        cbv beta iota zeta delta [catch]. by intros <-%Return_inj.
      * rewrite (execute_completed env input operationData c u) by done.
        cbv zeta.
        destruct (expiresAt env operationData) as [expires|e]; [|done].
        destruct (format input).
        -- by intros <-%Return_inj.
        -- destruct (fetch env (c :: u)) as [response|e]; [|done].
           destruct (ok response); [|done]. intros <-%Return_inj.
           cbn [sample_objects sample_sampleSize]. split_and!; [done| |done].
           etrans; [apply inj_le, length_omap_le|].
           rewrite length_take.
           pose proof (iterations_mono _ _
                         (Math_min_le_l (sampleSize input)
                            (inject_Z (Z.of_nat
                               (length (split 10 (trim (text response))))))))
             as Hpasses.
           unfold iterations in Hpasses |- *. lia.
        -- destruct (fetch env (c :: u)) as [response|e]; [|done].
           destruct (ok response); [|done]. intros <-%Return_inj.
           cbn [data full_objectCount note truncated]. split_and!; [done| |done|].
           ++ etrans; [apply length_omap_le|].
              rewrite length_take. unfold MAX_FULL_OBJECTS. lia.
           ++ destruct (gt _ _); [by split; eauto|].
              split; [by intros [? ?]|done].
      * unfold execute, mbind, outcome_bind, bind.
        rewrite Hfind, Hstatus, Hurl.
        rewrite bool_decide_eq_false_2 by (intros Hne; by apply Hne).
        cbv beta iota zeta delta [catch]. by intros <-%Return_inj.
    + unfold execute, mbind, outcome_bind, bind.
      rewrite Hfind. rewrite bool_decide_eq_true_2 by done.
      cbv beta iota zeta delta [catch]. by intros <-%Return_inj.
  - unfold execute, mbind, outcome_bind, bind. rewrite Hfind.
    cbv beta iota zeta delta [catch]. by intros <-%Return_inj.
  - unfold execute, mbind, outcome_bind, bind. rewrite Hfind.
    cbv beta iota zeta delta [catch]. done.
Qed.

(** X30. A sample is the beginning of the full result: for a sample size
    of at most 1000, when the [sample] format returns, the [full] format
    on the same operation and file returns too, and the sample's objects
    are a prefix of the full result's. *)
Theorem sample_prefix_of_full env operation (size : Q) id s :
  (size <= inject_Z 1000)%Q →
  execute env {| operationId := operation; format := sample; sampleSize := size |}
  = Return (Sample id s) →
  ∃ f,
    execute env {| operationId := operation; format := full; sampleSize := size |}
    = Return (Full id f)
    ∧ sample_objects s `prefix_of` data f.
Proof.
  intros Hsize.
  destruct (find (shopifyClient env) operation)
    as [[operationData|]|e] eqn:Hfind.
  - destruct (decide (status operationData = js "COMPLETED")) as [Hstatus|Hstatus].
    + destruct (url operationData) as [[|c u]|] eqn:Hurl.
      * unfold execute, mbind, outcome_bind, bind. cbn [operationId].
        rewrite Hfind, Hstatus, Hurl.
        rewrite bool_decide_eq_false_2 by (intros Hne; by apply Hne).
        cbv beta iota zeta delta [catch]. intros ?%Return_inj. done.
      * rewrite !(execute_completed env _ operationData c u) by done.
        cbv zeta. cbn [format sampleSize].
        destruct (expiresAt env operationData) as [expires|e]; [|done].
        destruct (fetch env (c :: u)) as [response|e]; [|done].
        destruct (ok response); [|done].
        intros [<- <-]%Return_inj%Sample_inj.
        eexists. split; [reflexivity|]. cbn [sample_objects data].
        apply omap_take_prefix. rewrite <- iterations_inject_Z.
        apply iterations_mono. unfold MAX_FULL_OBJECTS.
        destruct (Z.min_spec 1000 (Z.of_nat (length (split 10 (trim (text response))))))
          as [[_ ->] | [_ ->]].
        -- eapply Qle_trans; [apply Math_min_le_l|done].
        -- apply Math_min_le_r.
      * unfold execute, mbind, outcome_bind, bind. cbn [operationId].
        rewrite Hfind, Hstatus, Hurl.
        rewrite bool_decide_eq_false_2 by (intros Hne; by apply Hne).
        cbv beta iota zeta delta [catch]. intros ?%Return_inj. done.
    + unfold execute at 1, mbind, outcome_bind, bind. cbn [operationId].
      rewrite Hfind. rewrite bool_decide_eq_true_2 by done.
      cbv beta iota zeta delta [catch]. intros ?%Return_inj. done.
  - unfold execute at 1, mbind, outcome_bind, bind. cbn [operationId].
    rewrite Hfind. cbv beta iota zeta delta [catch]. intros ?%Return_inj. done.
  - unfold execute at 1, mbind, outcome_bind, bind. cbn [operationId].
    rewrite Hfind. cbv beta iota zeta delta [catch]. done.
Qed.

End ResultsMore.

Section ResultsMoreExamples.

Import BulkOperation GetBulkOperationResults.

Lemma summary_never_downloads_witness :
  let input := {| operationId := None; format := summary;
                  sampleSize := inject_Z 10 |} in
  execute (environment_with_lines 3) input
  = execute
      {| shopifyClient := shopifyClient (environment_with_lines 3);
         fetch := fun _ => Throw (js "network unreachable");
         JSON_parse := fun _ => None;
         seven_days_after := seven_days_after (environment_with_lines 3) |}
      input.
Proof.
  intros input.
  apply (summary_never_downloads (environment_with_lines 3)); reflexivity.
Defined.

Lemma download_decides_outcome_witness :
  let env : environment jsstring :=
    {| shopifyClient := shopifyClient (environment_with_lines 3);
       fetch := fun _ =>
         Return {| ok := false; http_status := 403;
                   statusText := js "Forbidden"; text := js "<Error/>" |};
       JSON_parse := parse_braces;
       seven_days_after := seven_days_after (environment_with_lines 3) |} in
  execute env full_input
  = Throw (js "Failed to get bulk operation results: Failed to download results: 403 Forbidden").
Proof.
  intros env.
  apply (download_decides_outcome env full_input (completed_operation 3)
           (js "https://storage.example/result.jsonl")
           (Some (js "2024-01-08T00:10:00.000Z"))
           {| ok := false; http_status := 403;
              statusText := js "Forbidden"; text := js "<Error/>" |});
    try reflexivity; discriminate.
Defined.

Lemma results_bounded_witness :
  let input := {| operationId := None; format := sample; sampleSize := 5 # 2 |} in
  ∃ s, execute (environment_with_lines 5) input
         = Return (Sample (js "gid://shopify/BulkOperation/1") s)
       ∧ length (sample_objects s) = 3%nat
       ∧ Z.of_nat (length (sample_objects s)) ≤ 3.
Proof.
  intros input. eexists. split; [reflexivity|]. split; [reflexivity|].
  destruct (results_bounded (environment_with_lines 5) input _ eq_refl)
    as (_ & Hlength & _).
  exact Hlength.
Defined.

Lemma sample_prefix_of_full_witness :
  ∃ s f,
    execute (environment_with_lines 3)
      {| operationId := None; format := sample; sampleSize := inject_Z 2 |}
    = Return (Sample (js "gid://shopify/BulkOperation/1") s)
    ∧ execute (environment_with_lines 3)
        {| operationId := None; format := full; sampleSize := inject_Z 2 |}
      = Return (Full (js "gid://shopify/BulkOperation/1") f)
    ∧ sample_objects s `prefix_of` data f.
Proof.
  eexists.
  destruct (sample_prefix_of_full (environment_with_lines 3) None (inject_Z 2)
              (js "gid://shopify/BulkOperation/1") _ ltac:(done) eq_refl)
    as (f & Hfull & Hprefix).
  exists f. split; [reflexivity|]. split; [exact Hfull|exact Hprefix].
Defined.

End ResultsMoreExamples.
